(** * OnTime dashboard: realtime state synchronisation engine

    A shallow embedding of the parts of the dashboard that keep the local
    view of the Ontime server in step with the server:

    - [src/lib/ontime-api.ts] (class [OntimeAPI]): the WebSocket frame
      handler, the message classification, the reconnection timer and the
      explicit teardown;
    - [src/hooks/useOntime.ts]: the runtime snapshot kept by
      [useWebSocketConnection] and the status derivation of
      [useEventsWithStatus];
    - [src/components/EventCard.tsx]: the custom-field editor
      ([handleFieldSave]).

    JavaScript values are modelled by the inductive type [value]; numbers
    are the integers [Z] (exact for the timer values the server sends,
    which are whole milliseconds and seconds), and [NaN] appears only as
    the result of an arithmetic coercion.  A conversion that can throw a
    [TypeError] returns an [option].  Frames are text frames.  Library
    functions whose definition is not part of the repository
    ([JSON.parse], [String.prototype.toLowerCase], the string-to-number
    conversion, the HTTP client) are section variables: every general
    statement holds for all of them. *)

From Stdlib Require Import ZArith String Ascii DecimalString.
From stdpp Require Import gmap strings list.

Open Scope string_scope.
Open Scope list_scope.

Set Warnings "-register-all".

(** ** JavaScript values *)

Module JS.

Inductive value : Type :=
| VUndefined
| VNull
| VBool (b : bool)
| VNum (n : Z)
| VStr (s : string)
| VArr (items : list value)
| VObj (fields : list (string * value)).

(** Result of an arithmetic expression: a number or [NaN]. *)
Inductive number : Type :=
| Num (z : Z)
| NaN.

(** [typeof v] *)
Definition typeof (v : value) : string :=
  match v with
  | VUndefined => "undefined"
  | VNull => "object"
  | VBool _ => "boolean"
  | VNum _ => "number"
  | VStr _ => "string"
  | VArr _ | VObj _ => "object"
  end.

(** Truthiness, as tested by [if (v)], [!v], [v && ...] and [v || ...]. *)
Definition truthy (v : value) : bool :=
  match v with
  | VUndefined | VNull => false
  | VBool b => b
  | VNum n => negb (n =? 0)%Z
  | VStr s => negb (String.eqb s "")
  | VArr _ | VObj _ => true
  end.

(** [a || b] *)
Definition or_else (a b : value) : value := if truthy a then a else b.

Fixpoint assoc (k : string) (fs : list (string * value)) : value :=
  match fs with
  | [] => VUndefined
  | (k', v) :: rest => if String.eqb k k' then v else assoc k rest
  end.

(** [v?.k], and [v.k] where the source has checked that [v] is not
    nullish.  The keys the program reads ([topic], [type], [data],
    [payload], [timer], [playback], [current], [state],
    [selectedEventId]) are own properties of decoded objects only, so
    the read of any other value is [undefined]. *)
Definition prop (v : value) (k : string) : value :=
  match v with
  | VObj fs => assoc k fs
  | _ => VUndefined
  end.

(** [v === s] for a string [s] *)
Definition strict_eq_str (v : value) (s : string) : bool :=
  match v with
  | VStr s' => String.eqb s' s
  | _ => false
  end.

Definition is_undefined (v : value) : bool :=
  match v with VUndefined => true | _ => false end.

Definition is_nullish (v : value) : bool :=
  match v with VUndefined | VNull => true | _ => false end.

(** The decimal text of an integer, as [String(n)] prints every integer
    below 10^21 in magnitude. *)
Definition decimal (n : Z) : string := NilZero.string_of_int (Z.to_int n).

(** [k in fs] as an own property. *)
Definition has_own (k : string) (fs : list (string * value)) : bool :=
  existsb (fun p => String.eqb p.1 k) fs.

(** [String(v)]; [None] when the conversion throws a [TypeError].  An
    array is joined with commas, [null] and [undefined] elements giving
    the empty text.  A decoded object inherits [Object.prototype.toString]
    and gives "[object Object]", unless it has an entry of its own named
    [toString]: that entry is not callable, [valueOf] returns the object
    itself, and the conversion throws. *)
Fixpoint ToString (v : value) : option string :=
  match v with
  | VUndefined => Some "undefined"
  | VNull => Some "null"
  | VBool true => Some "true"
  | VBool false => Some "false"
  | VNum n => Some (decimal n)
  | VStr s => Some s
  | VArr items =>
      String.concat "," <$>
        (fix join (l : list value) : option (list string) :=
           match l with
           | [] => Some []
           | x :: rest =>
               match (match x with
                      | VUndefined | VNull => Some ""
                      | _ => ToString x
                      end), join rest with
               | Some s, Some ss => Some (s :: ss)
               | _, _ => None
               end
           end) items
  | VObj fs => if has_own "toString" fs then None else Some "[object Object]"
  end.

Definition sub (a b : number) : number :=
  match a, b with
  | Num x, Num y => Num (x - y)
  | _, _ => NaN
  end.

Section Coercion.
(** The numeric value of a string (the [StringToNumber] operation of
    the language). *)
Variable StringToNumber : string -> number.

(** The operand coercion of [-]; [None] when it throws a [TypeError].
    For an object or an array [valueOf] gives no primitive, so the
    number is that of the [String()] text. *)
Definition ToNumber (v : value) : option number :=
  match v with
  | VUndefined => Some NaN
  | VNull => Some (Num 0)
  | VBool b => Some (Num (if b then 1 else 0))
  | VNum n => Some (Num n)
  | VStr s => Some (StringToNumber s)
  | VArr _ | VObj _ => StringToNumber <$> ToString v
  end.
End Coercion.

(** An ASCII instance of [toLowerCase], used to run the handlers on
    concrete frames. *)
Definition lower_ascii (c : ascii) : ascii :=
  let n := nat_of_ascii c in
  if (65 <=? n)%nat && (n <=? 90)%nat then ascii_of_nat (n + 32) else c.

Fixpoint toLowerCase_ascii (s : string) : string :=
  match s with
  | EmptyString => EmptyString
  | String c rest => String (lower_ascii c) (toLowerCase_ascii rest)
  end.

End JS.

Import JS.

(** ** Data model ([src/types/ontime.ts]) *)

Inductive EndAction := ea_none | ea_load_next | ea_play_next | ea_stop.
Inductive TimerType := tt_count_down | tt_count_up | tt_clock | tt_none.

Module OntimeEvent.
Record t : Type := mk {
  id : string;
  title : string;
  note : option string;
  cue : string;
  isPublic : bool;
  skip : bool;
  colour : option string;
  timeWarning : option Z;
  timeDanger : option Z;
  endAction : EndAction;
  timerType : TimerType;
  duration : option Z;
  timeStart : option Z;
  timeEnd : option Z;
  custom : option (gmap string string)
}.
End OntimeEvent.

Inductive EventStatus := completed | active | upcoming | skipped.

Record EventWithStatus : Type := {
  event : OntimeEvent.t;
  status : EventStatus;
  isRunning : bool;
  timeRemaining : option number
}.

(** ** Event status derivation ([useEventsWithStatus]) *)

(** [rundown.findIndex(e => e.id === currentEventId)] *)
Fixpoint findIndex_from (i : Z) (currentEventId : value)
    (rundown : list OntimeEvent.t) : Z :=
  match rundown with
  | [] => (-1)%Z
  | e :: rest =>
      if strict_eq_str currentEventId (OntimeEvent.id e) then i
      else findIndex_from (i + 1)%Z currentEventId rest
  end.

Definition findIndex := findIndex_from 0%Z.

(** [event.duration] used as a condition: [undefined] and [0] are falsy. *)
Definition duration_truthy (d : option Z) : bool :=
  match d with
  | Some z => negb (z =? 0)%Z
  | None => false
  end.

Section Deriver.
Variable StringToNumber : string -> number.

(** The body of the [rundown.map((event, index) => ...)] callback;
    [None] when the subtraction throws. *)
Definition deriveOne (rundown : list OntimeEvent.t) (runtimeData : value)
    (e : OntimeEvent.t) (index : Z) : option EventWithStatus :=
  let currentEventId := prop (prop runtimeData "playback") "selectedEventId" in
  let currentTime := prop (prop runtimeData "timer") "current" in
  if OntimeEvent.skip e then
    Some {| event := e; status := skipped; isRunning := false;
            timeRemaining := None |}
  else if strict_eq_str currentEventId (OntimeEvent.id e) then
    let isRunning :=
      strict_eq_str (prop (prop runtimeData "playback") "state") "start" in
    if negb (is_undefined currentTime)
       && duration_truthy (OntimeEvent.duration e)
    then
      match OntimeEvent.duration e, ToNumber StringToNumber currentTime with
      | Some d, Some c =>
          Some {| event := e; status := active; isRunning := isRunning;
                  timeRemaining := Some (sub (Num (d * 1000)) c) |}
      | _, _ => None
      end
    else
      Some {| event := e; status := active; isRunning := isRunning;
              timeRemaining := None |}
  else
    let currentIndex := findIndex currentEventId rundown in
    Some {| event := e;
            status :=
              if negb (currentIndex =? -1)%Z && (index <? currentIndex)%Z
              then completed else upcoming;
            isRunning := false;
            timeRemaining := None |}.

(** [Array.prototype.map] with the index; a callback that throws ends
    the whole derivation. *)
Fixpoint map_index (rundown : list OntimeEvent.t) (runtimeData : value)
    (index : Z) (l : list OntimeEvent.t) : option (list EventWithStatus) :=
  match l with
  | [] => Some []
  | e :: rest =>
      match deriveOne rundown runtimeData e index with
      | Some r =>
          (fun rs => r :: rs)
            <$> map_index rundown runtimeData (index + 1)%Z rest
      | None => None
      end
  end.

(** [data] is the query result ([undefined] until the rundown is
    loaded, defaulted to [[]]); [runtimeData] is the hook's snapshot
    ([null] before the first update). *)
Definition useEventsWithStatus (data : option (list OntimeEvent.t))
    (runtimeData : value) : option (list EventWithStatus) :=
  let rundown := default [] data in
  map_index rundown runtimeData 0%Z rundown.
End Deriver.

(** ** Subscribers and observable effects ([OntimeAPI.wsListeners]) *)

(** What the handlers write with [console.log], [console.warn] and
    [console.error]; each constructor is one call site. *)
Inductive LogEntry : Type :=
| LogRawData (data : string)
| WarnEmptyMessage
| ErrParse (data : string)
| WarnInvalidStructure (parsedMessage : value)
| LogDirectData (parsedMessage : value)
| WarnNullMessage
| WarnTopicNullish (message : value)
| LogNoTopic (payload : value)
| ErrNoTopicCallback
| WarnTopicNotString (topic : value)
| LogProcessed (topicValue : string) (payload : value)
| LogProcessing (normalizedTopic : string) (payload : value)
| ErrIndividualCallback
| LogUnknownType (normalizedTopic : string) (payload : value)
| ErrUnknownCallback
| ErrCritical
| ErrStackTrace
| ErrCausingMessage (message : value)
| LogLastResort
| ErrLastResortFailed
| LogConnected
| LogClosed
| ErrWebSocket
| LogReconnecting
| ErrFieldUpdate (error : string).

(** How a call of a subscriber ends: it returns, or it throws; in both
    cases with the state it has written so far. *)
Inductive Completion (A : Type) : Type :=
| Returned (a : A)
| Thrown (a : A).
Arguments Returned {A} a.
Arguments Thrown {A} a.

(** [WebSocket.readyState] *)
Inductive ReadyState := CONNECTING | OPEN | CLOSING | CLOSED.

#[global] Instance ReadyState_eq_dec : EqDecision ReadyState.
Proof. solve_decision. Defined.

(** The two [setInterval] call sites: the reconnection timer of
    [scheduleReconnect] (5000 ms) and the state-request timer armed by
    [onopen] (100 ms). *)
Inductive IntervalKind := ReconnectTimer | ProbeTimer.

#[global] Instance IntervalKind_eq_dec : EqDecision IntervalKind.
Proof. solve_decision. Defined.

Section Engine.
(** The subscribers' own state (React state, query cache). *)
Variable S : Type.
(** [JSON.parse]: [None] when it throws a [SyntaxError]. *)
Variable JSON_parse : string -> option value.
(** [String.prototype.toLowerCase] *)
Variable toLowerCase : string -> string.

(** An element of the [wsListeners] set; [lid] is the identity of the
    function object. *)
Record Listener : Type := {
  lid : nat;
  callback : value -> S -> Completion S
}.

Record Effects : Type := {
  store : S;
  delivered : list (nat * value);
  console : list LogEntry
}.

Definition log (entry : LogEntry) (e : Effects) : Effects :=
  {| store := store e; delivered := delivered e;
     console := console e ++ [entry] |}.

(** [callback(payload)]; the call is recorded in [delivered]. *)
Definition invoke (l : Listener) (payload : value) (e : Effects)
    : Completion Effects :=
  let after s :=
    {| store := s; delivered := delivered e ++ [(lid l, payload)];
       console := console e |} in
  match callback l payload (store e) with
  | Returned s => Returned (after s)
  | Thrown s => Thrown (after s)
  end.

(** [wsListeners.forEach(callback => callback(payload))]: the first
    subscriber that throws ends the iteration. *)
Fixpoint forEach (ls : list Listener) (payload : value) (e : Effects)
    : Completion Effects :=
  match ls with
  | [] => Returned e
  | l :: rest =>
      match invoke l payload e with
      | Returned e' => forEach rest payload e'
      | Thrown e' => Thrown e'
      end
  end.

(** [wsListeners.forEach(callback => { try { callback(payload) } catch
    { console.error(...) } })]: a subscriber that throws is logged and
    the iteration goes on. *)
Fixpoint forEach_try (onError : LogEntry) (ls : list Listener)
    (payload : value) (e : Effects) : Effects :=
  match ls with
  | [] => e
  | l :: rest =>
      match invoke l payload e with
      | Returned e' => forEach_try onError rest payload e'
      | Thrown e' => forEach_try onError rest payload (log onError e')
      end
  end.

(** The calls a full iteration over [ls] makes. *)
Definition calls (ls : list Listener) (payload : value) : list (nat * value) :=
  map (fun l => (lid l, payload)) ls.

(** ** Message classification ([OntimeAPI.handleWebSocketMessage]) *)

Definition validTopics : list string :=
  [ "ontime-clock"; "clock"; "runtime"; "timer"; "playback"; "poll";
    "get-runtime"; "get-timer"; "get-playback"; "ontime"; "ontime-poll";
    "unknown-data"; "error" ].

(** [validTopics.includes(t)] *)
Definition includes (ts : list string) (t : string) : bool :=
  existsb (String.eqb t) ts.

(** [if (typeof topic !== 'string') topic = String(topic || '')];
    [None] when [String] throws. *)
Definition coerceTopic (topic : value) : option string :=
  match topic with
  | VStr s => Some s
  | _ => ToString (or_else topic (VStr ""))
  end.

(** [topic && typeof topic === 'string' ? topic.toLowerCase() : 'unknown']
    (the [catch] around it, which would give ['error'], cannot be
    entered: [topic] is a string here). *)
Definition normalizeTopic (topic : string) : string :=
  if truthy (VStr topic) then toLowerCase topic else "unknown".

(** [payload && typeof payload === 'object'] *)
Definition is_object (payload : value) : bool :=
  truthy payload && String.eqb (typeof payload) "object".

(** The outer [catch] of [handleWebSocketMessage]: three error lines,
    then the payload, or the message itself, is broadcast if it is an
    object. *)
Definition lastResort (message : value) (ls : list Listener) (e : Effects)
    : Effects :=
  let e :=
    log (ErrCausingMessage message) (log ErrStackTrace (log ErrCritical e)) in
  if is_object message then
    let fallbackPayload := or_else (prop message "payload") message in
    if is_object fallbackPayload then
      forEach_try ErrLastResortFailed ls fallbackPayload (log LogLastResort e)
    else e
  else e.

(** [handleWebSocketMessage(message)].  In the body of the outer [try]
    the only operation that can throw is [String(topic || '')]: every
    subscriber call is inside a [try] of its own. *)
Definition handleWebSocketMessage (message : value) (ls : list Listener)
    (e : Effects) : Effects :=
  if negb (truthy message) then log WarnNullMessage e
  else
    let topic := prop message "topic" in
    let payload := prop message "payload" in
    if is_nullish topic then
      let e1 := log (WarnTopicNullish message) e in
      if is_object payload then
        match forEach ls payload (log (LogNoTopic payload) e1) with
        | Returned e2 => e2
        | Thrown e2 => log ErrNoTopicCallback e2
        end
      else e1
    else
      let e1 :=
        if String.eqb (typeof topic) "string" then e
        else log (WarnTopicNotString topic) e in
      match coerceTopic topic with
      | None => lastResort message ls e1
      | Some topic =>
          let e2 := log (LogProcessed topic payload) e1 in
          let normalizedTopic := normalizeTopic topic in
          if includes validTopics normalizedTopic then
            let e3 := log (LogProcessing normalizedTopic payload) e2 in
            if truthy payload
            then forEach_try ErrIndividualCallback ls payload e3
            else e3
          else
            let e3 := log (LogUnknownType normalizedTopic payload) e2 in
            if is_object payload
            then forEach_try ErrUnknownCallback ls payload e3
            else e3
      end.

(** ** Frame normalisation (the [onmessage] handler) *)

(** [{ topic: t, payload: p }] *)
Definition envelope (t p : value) : value :=
  VObj [("topic", t); ("payload", p)].

(** [websocket.onmessage] for the text [event.data].  Nothing in the body
    of its outer [try] throws: [JSON.parse] has a [try] of its own and
    [handleWebSocketMessage] catches what it raises. *)
Definition onmessage (data : string) (ls : list Listener) (e : Effects)
    : Effects :=
  let e0 := log (LogRawData data) e in
  if String.eqb data "" then log WarnEmptyMessage e0
  else
    match JSON_parse data with
    | None => log (ErrParse data) e0
    | Some parsedMessage =>
        if negb (truthy parsedMessage)
           || negb (String.eqb (typeof parsedMessage) "object")
        then log (WarnInvalidStructure parsedMessage) e0
        else if negb (is_undefined (prop parsedMessage "topic")) then
          handleWebSocketMessage parsedMessage ls e0
        else if negb (is_undefined (prop parsedMessage "type")) then
          handleWebSocketMessage
            (envelope (prop parsedMessage "type")
                      (or_else (prop parsedMessage "data") parsedMessage))
            ls e0
        else
          handleWebSocketMessage
            (envelope (VStr "unknown-data") parsedMessage)
            ls (log (LogDirectData parsedMessage) e0)
    end.

(** A decoded value that is not of type object: [null], a boolean, a
    number or a string. *)
Definition primitive (v : value) : Prop :=
  match v with
  | VArr _ | VObj _ => False
  | _ => True
  end.

(** The message [onmessage] hands to [handleWebSocketMessage] for a
    decoded object: the object itself when it has a [topic], the
    conversion of the [{type, data}] format, or the direct-data wrapper. *)
Definition envelopeOf (parsedMessage : value) : value :=
  if negb (is_undefined (prop parsedMessage "topic")) then parsedMessage
  else if negb (is_undefined (prop parsedMessage "type")) then
    envelope (prop parsedMessage "type")
             (or_else (prop parsedMessage "data") parsedMessage)
  else envelope (VStr "unknown-data") parsedMessage.

(** ** Connection manager ([connectWebSocket], [scheduleReconnect],
       [disconnectWebSocket]) *)

(** The fields of the [OntimeAPI] instance, followed by the browser
    objects they refer to: every [WebSocket] constructed so far (a
    socket is named by its position in [sockets]), the armed intervals
    with their handles, and the frames handed to [WebSocket.send]. *)
Record World : Type := {
  websocket : option nat;
  reconnectInterval : option nat;
  wsListeners : list Listener;
  sockets : list ReadyState;
  intervals : list (nat * IntervalKind);
  nextTimer : nat;
  outbox : list (nat * string * value);
  eff : Effects
}.

Definition set_websocket (v : option nat) (w : World) : World :=
  {| websocket := v; reconnectInterval := reconnectInterval w;
     wsListeners := wsListeners w; sockets := sockets w;
     intervals := intervals w; nextTimer := nextTimer w;
     outbox := outbox w; eff := eff w |}.

Definition set_reconnectInterval (v : option nat) (w : World) : World :=
  {| websocket := websocket w; reconnectInterval := v;
     wsListeners := wsListeners w; sockets := sockets w;
     intervals := intervals w; nextTimer := nextTimer w;
     outbox := outbox w; eff := eff w |}.

Definition set_wsListeners (v : list Listener) (w : World) : World :=
  {| websocket := websocket w; reconnectInterval := reconnectInterval w;
     wsListeners := v; sockets := sockets w;
     intervals := intervals w; nextTimer := nextTimer w;
     outbox := outbox w; eff := eff w |}.

Definition set_sockets (v : list ReadyState) (w : World) : World :=
  {| websocket := websocket w; reconnectInterval := reconnectInterval w;
     wsListeners := wsListeners w; sockets := v;
     intervals := intervals w; nextTimer := nextTimer w;
     outbox := outbox w; eff := eff w |}.

Definition set_intervals (v : list (nat * IntervalKind)) (w : World) : World :=
  {| websocket := websocket w; reconnectInterval := reconnectInterval w;
     wsListeners := wsListeners w; sockets := sockets w;
     intervals := v; nextTimer := nextTimer w;
     outbox := outbox w; eff := eff w |}.

Definition set_nextTimer (v : nat) (w : World) : World :=
  {| websocket := websocket w; reconnectInterval := reconnectInterval w;
     wsListeners := wsListeners w; sockets := sockets w;
     intervals := intervals w; nextTimer := v;
     outbox := outbox w; eff := eff w |}.

Definition set_outbox (v : list (nat * string * value)) (w : World) : World :=
  {| websocket := websocket w; reconnectInterval := reconnectInterval w;
     wsListeners := wsListeners w; sockets := sockets w;
     intervals := intervals w; nextTimer := nextTimer w;
     outbox := v; eff := eff w |}.

Definition set_eff (v : Effects) (w : World) : World :=
  {| websocket := websocket w; reconnectInterval := reconnectInterval w;
     wsListeners := wsListeners w; sockets := sockets w;
     intervals := intervals w; nextTimer := nextTimer w;
     outbox := outbox w; eff := v |}.

Definition wlog (entry : LogEntry) (w : World) : World :=
  set_eff (log entry (eff w)) w.

(** [this.websocket && this.websocket.readyState === WebSocket.OPEN] *)
Definition websocket_open (w : World) : bool :=
  match websocket w with
  | Some i =>
      bool_decide (sockets w !! i = Some OPEN)
  | None => false
  end.

(** [sendWebSocketMessage(topic, payload)] *)
Definition sendWebSocketMessage (topic : string) (payload : value)
    (w : World) : World :=
  match websocket w with
  | Some i =>
      if websocket_open w then set_outbox (outbox w ++ [(i, topic, payload)]) w
      else w
  | None => w
  end.

(** [setInterval(handler, ms)]: a fresh, non-zero handle. *)
Definition setInterval (kind : IntervalKind) (w : World) : nat * World :=
  let t := nextTimer w in
  (t, set_nextTimer (Datatypes.S t) (set_intervals (intervals w ++ [(t, kind)]) w)).

(** [clearInterval(t)] *)
Definition clearInterval (t : nat) (w : World) : World :=
  set_intervals (filter (fun p => p.1 ≠ t) (intervals w)) w.

(** [connectWebSocket()]: [this.websocket = new WebSocket(this.wsUrl)]
    and the four handlers below are attached to the new socket ([wsUrl]
    is taken to be a valid URL, so the constructor does not throw).  The
    method tests neither [this.websocket] nor [this.reconnectInterval]. *)
Definition connectWebSocket (w : World) : World :=
  let i := length (sockets w) in
  set_websocket (Some i) (set_sockets (sockets w ++ [CONNECTING]) w).

(** [websocket.onopen] *)
Definition onopen (w : World) : World :=
  let w := wlog LogConnected w in
  let w := sendWebSocketMessage "get-runtime" (VObj []) w in
  let w := sendWebSocketMessage "get-timer" (VObj []) w in
  let w := sendWebSocketMessage "get-playback" (VObj []) w in
  let w := sendWebSocketMessage "poll-runtime" (VObj []) w in
  let w := sendWebSocketMessage "ontime-poll" (VObj []) w in
  (setInterval ProbeTimer w).2.

(** The handler of the interval armed by [onopen]. *)
Definition probe (w : World) : World :=
  if websocket_open w then
    sendWebSocketMessage "ontime-poll" (VObj [])
      (sendWebSocketMessage "get-runtime" (VObj []) w)
  else w.

(** [scheduleReconnect()] *)
Definition scheduleReconnect (w : World) : World :=
  match reconnectInterval w with
  | Some _ => w
  | None =>
      let (t, w') := setInterval ReconnectTimer w in
      set_reconnectInterval (Some t) w'
  end.

(** The handler of the interval armed by [scheduleReconnect]. *)
Definition reconnect (w : World) : World :=
  connectWebSocket (wlog LogReconnecting w).

(** [websocket.onclose] *)
Definition onclose (w : World) : World :=
  scheduleReconnect (set_websocket None (wlog LogClosed w)).

(** [websocket.onerror]: logs and rejects the promise of the call that
    made the socket. *)
Definition onerror (w : World) : World := wlog ErrWebSocket w.

(** [WebSocket.close()] on socket [i]: the closing handshake starts; the
    [close] event is delivered later. *)
Definition socket_close (i : nat) (w : World) : World :=
  match sockets w !! i with
  | Some CONNECTING | Some OPEN => set_sockets (<[i := CLOSING]> (sockets w)) w
  | _ => w
  end.

(** [disconnectWebSocket()] *)
Definition disconnectWebSocket (w : World) : World :=
  let w :=
    match reconnectInterval w with
    | Some t => set_reconnectInterval None (clearInterval t w)
    | None => w
    end in
  let w :=
    match websocket w with
    | Some i => set_websocket None (socket_close i w)
    | None => w
    end in
  set_wsListeners [] w.

(** [onRuntimeDataUpdate(callback)]: [wsListeners.add(callback)] *)
Definition onRuntimeDataUpdate (l : Listener) (w : World) : World :=
  if existsb (fun l' => Nat.eqb (lid l') (lid l)) (wsListeners w) then w
  else set_wsListeners (wsListeners w ++ [l]) w.

(** The function it returns: [wsListeners.delete(callback)] *)
Definition unsubscribe (l : nat) (w : World) : World :=
  set_wsListeners (filter (fun l' => lid l' ≠ l) (wsListeners w)) w.

(** What can happen to the instance: calls of its public methods, and
    the events the browser delivers to the handlers it installed. *)
Inductive Event : Type :=
| CallConnect
| CallDisconnect
| CallSubscribe (l : Listener)
| CallUnsubscribe (l : nat)
| SockOpen (i : nat)
| SockMessage (i : nat) (data : string)
| SockError (i : nat)
| SockClose (i : nat)
| Tick (t : nat).

Definition interval_kind (t : nat) (w : World) : option IntervalKind :=
  (fun r => r.2.2) <$> list_find (fun p => p.1 = t) (intervals w).

(** One event; [None] when the browser cannot deliver it in [w] (an
    [open] needs a connecting socket, a [message] an open one, a [close]
    a socket that is not closed yet, a tick an armed interval).  The
    events are the calls and the handlers that run; what the browser
    does to [readyState] on its own between them (closing when the peer
    starts the closing handshake, closed just before an [error] event)
    is no event of its own. *)
Definition step (w : World) (ev : Event) : option World :=
  match ev with
  | CallConnect => Some (connectWebSocket w)
  | CallDisconnect => Some (disconnectWebSocket w)
  | CallSubscribe l => Some (onRuntimeDataUpdate l w)
  | CallUnsubscribe l => Some (unsubscribe l w)
  | SockOpen i =>
      match sockets w !! i with
      | Some CONNECTING => Some (onopen (set_sockets (<[i := OPEN]> (sockets w)) w))
      | _ => None
      end
  | SockMessage i data =>
      match sockets w !! i with
      | Some OPEN => Some (set_eff (onmessage data (wsListeners w) (eff w)) w)
      | _ => None
      end
  | SockError i =>
      match sockets w !! i with
      | Some CLOSED | None => None
      | Some _ => Some (onerror w)
      end
  | SockClose i =>
      match sockets w !! i with
      | Some CLOSED | None => None
      | Some _ => Some (onclose (set_sockets (<[i := CLOSED]> (sockets w)) w))
      end
  | Tick t =>
      match interval_kind t w with
      | Some ReconnectTimer => Some (reconnect w)
      | Some ProbeTimer => Some (probe w)
      | None => None
      end
  end.

Fixpoint run (w : World) (trace : list Event) : option World :=
  match trace with
  | [] => Some w
  | ev :: rest =>
      match step w ev with
      | Some w' => run w' rest
      | None => None
      end
  end.

(** The instance after its constructor. *)
Definition init (s : S) : World :=
  {| websocket := None; reconnectInterval := None; wsListeners := [];
     sockets := []; intervals := []; nextTimer := 1; outbox := [];
     eff := {| store := s; delivered := []; console := [] |} |}.

Definition reachable (w : World) : Prop :=
  exists s trace, run (init s) trace = Some w.

(** Observations on a state. *)
Definition armed (kind : IntervalKind) (w : World) : list nat :=
  (filter (fun p => p.2 = kind) (intervals w)).*1.

Definition open_sockets (w : World) : list nat :=
  filter (fun i => sockets w !! i = Some OPEN) (seq 0 (length (sockets w))).

(** The handle held in [this.reconnectInterval], as a list. *)
Definition held (w : World) : list nat :=
  match reconnectInterval w with
  | Some t => [t]
  | None => []
  end.

(** The armed reconnection timers are exactly the one the instance
    holds a handle of. *)
Definition timer_inv (w : World) : Prop := armed ReconnectTimer w = held w.

(** A trace without a call of [connectWebSocket] from outside. *)
Definition no_explicit_connect (trace : list Event) : Prop :=
  Forall (fun ev => ev ≠ CallConnect) trace.

End Engine.

Arguments lid {S} _.
Arguments callback {S} _ _ _.
Arguments store {S} _.
Arguments delivered {S} _.
Arguments console {S} _.
Arguments log {S} entry e.
Arguments invoke {S} l payload e.
Arguments forEach {S} ls payload e.
Arguments forEach_try {S} onError ls payload e.
Arguments lastResort {S} message ls e.
Arguments handleWebSocketMessage {S} toLowerCase message ls e.
Arguments onmessage {S} JSON_parse toLowerCase data ls e.

(** The console entry under which a message with topic text [t] is
    recorded. *)
Definition recorded (toLowerCase : string -> string) (t : string)
    (payload : value) : LogEntry :=
  let normalizedTopic := normalizeTopic toLowerCase t in
  if includes validTopics normalizedTopic
  then LogProcessing normalizedTopic payload
  else LogUnknownType normalizedTopic payload.

(** A [JSON.parse] given by a table of frames and their decodings, used
    to run the handlers on concrete frames. *)
Definition parse_table (table : list (string * value)) (data : string)
    : option value :=
  snd <$> find (fun p => String.eqb p.1 data) table.
Arguments websocket {S} _.
Arguments reconnectInterval {S} _.
Arguments wsListeners {S} _.
Arguments sockets {S} _.
Arguments intervals {S} _.
Arguments nextTimer {S} _.
Arguments outbox {S} _.
Arguments eff {S} _.
Arguments set_websocket {S} v w.
Arguments set_reconnectInterval {S} v w.
Arguments set_wsListeners {S} v w.
Arguments set_sockets {S} v w.
Arguments set_intervals {S} v w.
Arguments set_nextTimer {S} v w.
Arguments set_outbox {S} v w.
Arguments set_eff {S} v w.
Arguments wlog {S} entry w.
Arguments websocket_open {S} w.
Arguments sendWebSocketMessage {S} topic payload w.
Arguments setInterval {S} kind w.
Arguments clearInterval {S} t w.
Arguments connectWebSocket {S} w.
Arguments onopen {S} w.
Arguments probe {S} w.
Arguments scheduleReconnect {S} w.
Arguments reconnect {S} w.
Arguments onclose {S} w.
Arguments onerror {S} w.
Arguments socket_close {S} i w.
Arguments disconnectWebSocket {S} w.
Arguments onRuntimeDataUpdate {S} l w.
Arguments unsubscribe {S} l w.
Arguments CallConnect {S}.
Arguments CallDisconnect {S}.
Arguments CallSubscribe {S} l.
Arguments CallUnsubscribe {S} l.
Arguments SockOpen {S} i.
Arguments SockMessage {S} i data.
Arguments SockError {S} i.
Arguments SockClose {S} i.
Arguments Tick {S} t.
Arguments interval_kind {S} t w.
Arguments step {S} JSON_parse toLowerCase w ev.
Arguments run {S} JSON_parse toLowerCase w trace.
Arguments init {S} s.
Arguments reachable {S} JSON_parse toLowerCase w.
Arguments armed {S} kind w.
Arguments open_sockets {S} w.
Arguments no_explicit_connect {S} trace.
Arguments calls {S} ls payload.
Arguments held {S} w.
Arguments timer_inv {S} w.

(** ** The runtime snapshot ([useWebSocketConnection]) *)

(** The React state of the hook and the query-cache entry it writes. *)
Record HookState : Type := {
  isConnected : bool;
  runtimeData : value;
  connectionError : option string;
  queryData_RUNTIME : value
}.

(** [useState(false)], [useState(null)], [useState(null)]; nothing
    cached yet. *)
Definition hookInitial : HookState :=
  {| isConnected := false; runtimeData := VNull; connectionError := None;
     queryData_RUNTIME := VUndefined |}.

(** The subscriber the hook registers with [onRuntimeDataUpdate]:
    [setRuntimeData(data); queryClient.setQueryData(RUNTIME, data)]. *)
Definition runtimeDataListener : Listener HookState :=
  {| lid := 0;
     callback := fun data h =>
       Returned {| isConnected := isConnected h; runtimeData := data;
                   connectionError := connectionError h;
                   queryData_RUNTIME := data |} |}.

(** The snapshot the hook returns, and one of its top-level slices
    ([timer], [playback], [eventNow], ...). *)
Definition snapshot (e : Effects HookState) : value := runtimeData (store e).

Definition slice (k : string) (snap : value) : value := prop snap k.

(** ** Custom-field editing ([EventCard], [useUpdateCustomField],
       [OntimeAPI.updateCustomField]) *)

(** How a request settles: the promise resolves with the response, or
    rejects with an error. *)
Inductive Settled : Type :=
| Resolved (response : value)
| Rejected (error : string).

Section CustomField.
(** [httpClient.patch(url, body)] *)
Variable patch : string -> value -> Settled.

(** [updateCustomField(eventId, fieldName, value)]: the rejection is not
    caught here. *)
Definition updateCustomField (eventId fieldName val : string) : Settled :=
  match patch ("/events/" +:+ eventId +:+ "/custom/" +:+ fieldName)
              (VObj [("value", VStr val)]) with
  | Resolved response => Resolved (prop response "data")
  | Rejected error => Rejected error
  end.

(** [useState] of the card: [editingField] and [fieldValues]. *)
Record CardState : Type := {
  editingField : option string;
  fieldValues : gmap string string
}.

(** [m[k] || ''] *)
Definition or_empty (v : option string) : string := default "" v.

(** [event.custom?.[fieldId]] *)
Definition custom_value (ev : OntimeEvent.t) (fieldId : string) : option string :=
  OntimeEvent.custom ev ≫= (fun m => m !! fieldId).

(** [useState(event.custom || {})], [useState(null)] *)
Definition cardInitial (ev : OntimeEvent.t) : CardState :=
  {| editingField := None; fieldValues := default ∅ (OntimeEvent.custom ev) |}.

(** [fieldValues[field.id] || event.custom?.[field.id] || ''] *)
Definition currentValue (ev : OntimeEvent.t) (st : CardState)
    (fieldId : string) : string :=
  let local := or_empty (fieldValues st !! fieldId) in
  if String.eqb local "" then or_empty (custom_value ev fieldId) else local.

(** What the card shows for a field: the input's [value] while the
    field is edited, [currentValue] otherwise. *)
Definition displayed (ev : OntimeEvent.t) (st : CardState)
    (fieldId : string) : string :=
  if bool_decide (editingField st = Some fieldId)
  then or_empty (fieldValues st !! fieldId)
  else currentValue ev st fieldId.

(** The edit button. *)
Definition startEdit (ev : OntimeEvent.t) (fieldId : string)
    (st : CardState) : CardState :=
  {| editingField := Some fieldId;
     fieldValues := <[fieldId := currentValue ev st fieldId]> (fieldValues st) |}.

(** [onChange] of the input or select. *)
Definition onChange (fieldId val : string) (st : CardState) : CardState :=
  {| editingField := editingField st;
     fieldValues := <[fieldId := val]> (fieldValues st) |}.

(** [handleFieldCancel(fieldId)] *)
Definition handleFieldCancel (ev : OntimeEvent.t) (fieldId : string)
    (st : CardState) : CardState :=
  {| editingField := None;
     fieldValues :=
       <[fieldId := or_empty (custom_value ev fieldId)]> (fieldValues st) |}.

(** [handleFieldSave(fieldId, value)].  [mutateAsync] settles as
    [updateCustomField] does (its [onSuccess] only invalidates the rundown
    query).  [st] is the state of the card when the request settles (the
    updates are functional, [prev => ...]); the result is the new state
    and what was written to the console. *)
Definition handleFieldSave (ev : OntimeEvent.t) (fieldId val : string)
    (st : CardState) : CardState * list LogEntry :=
  match updateCustomField (OntimeEvent.id ev) fieldId val with
  | Resolved _ =>
      ({| editingField := None; fieldValues := fieldValues st |}, [])
  | Rejected error =>
      ({| editingField := editingField st;
          fieldValues :=
            <[fieldId := or_empty (custom_value ev fieldId)]> (fieldValues st) |},
       [ErrFieldUpdate error])
  end.

(** The save button and the Enter key:
    [handleFieldSave(field.id, fieldValues[field.id] || '')]. *)
Definition save (ev : OntimeEvent.t) (fieldId : string) (st : CardState)
    : CardState * list LogEntry :=
  handleFieldSave ev fieldId (or_empty (fieldValues st !! fieldId)) st.
End CustomField.

(** ** Concrete data

    The events, snapshots and frames on which the handlers are run in
    the examples below. *)

Definition sampleEvent (id : string) (skip : bool) (duration : option Z)
    (custom : option (gmap string string)) : OntimeEvent.t :=
  OntimeEvent.mk id "" None "" true skip None None None ea_none tt_count_down
    duration None None custom.

(** The rundown of the end-to-end scenario. *)
Definition scenarioRundown : list OntimeEvent.t :=
  [ sampleEvent "421b5a" false (Some 300%Z) None;
    sampleEvent "21313f" false (Some 600%Z) None;
    sampleEvent "146dc4" false None None ].

(** A snapshot with a timer slice and a playback slice. *)
Definition scenarioSnapshot : value :=
  VObj [ ("timer", VObj [("current", VNum 30000); ("duration", VNum 600000)]);
         ("playback", VObj [("state", VStr "start");
                            ("selectedEventId", VStr "21313f")]) ].

(** A payload that has a timer slice only. *)
Definition timerOnlyPayload : value :=
  VObj [ ("timer", VObj [("current", VNum 31000); ("duration", VNum 600000)]) ].

(** No string is a number. *)
Definition noNumber (_ : string) : number := NaN.

(** The effects record of a hook whose snapshot is [snap]. *)
Definition hookEffects (snap : value) : Effects HookState :=
  {| store := {| isConnected := true; runtimeData := snap;
                 connectionError := None; queryData_RUNTIME := snap |};
     delivered := []; console := [] |}.

(** The instance right after its constructor, with the hook's state. *)
Definition start : World HookState := init hookInitial.

(** What the statements on the connection manager look at: the handle in
    [reconnectInterval], the armed reconnection timers, the socket in
    [websocket], and the state of every socket made so far. *)
Definition observe {S : Type} (w : World S)
    : option nat * list nat * option nat * list ReadyState :=
  (reconnectInterval w, armed ReconnectTimer w, websocket w, sockets w).

(** ** Time formatting ([OntimeAPI.formatTime], [OntimeAPI.formatDuration]) *)

(** [s.padStart(n, c)] for a one-character filler. *)
Definition padStart (n : nat) (c : ascii) (s : string) : string :=
  String.concat "" (replicate (n - String.length s) (String c "")) +:+ s.

(** [x.toString().padStart(2, '0')] for a whole number that is not
    negative. *)
Definition pad2 (x : Z) : string := padStart 2 "0"%char (decimal x).

(** [formatTime(ms)] for a whole number of milliseconds, or [NaN]. *)
Definition formatTime (ms : number) : string :=
  match ms with
  | NaN => "NaN:NaN"
  | Num ms =>
      let totalSeconds := (Z.abs ms / 1000)%Z in
      let hours := (totalSeconds / 3600)%Z in
      let minutes := ((totalSeconds mod 3600) / 60)%Z in
      let seconds := (totalSeconds mod 60)%Z in
      let sign := if (ms <? 0)%Z then "-" else "" in
      if (0 <? hours)%Z
      then sign +:+ pad2 hours +:+ ":" +:+ pad2 minutes +:+ ":" +:+ pad2 seconds
      else sign +:+ pad2 minutes +:+ ":" +:+ pad2 seconds
  end.

(** [formatDuration(seconds)] for a whole number of seconds, or [NaN]. *)
Definition formatDuration (seconds : number) : string :=
  match seconds with
  | NaN => "NaN:NaN"
  | Num seconds =>
      let mins := (Z.abs seconds / 60)%Z in
      let secs := (Z.abs seconds mod 60)%Z in
      let sign := if (seconds <? 0)%Z then "-" else "" in
      sign +:+ pad2 mins +:+ ":" +:+ pad2 secs
  end.

(** ** The ordered rundown ([OntimeAPI.getOrderedRundown]) *)

Module NormalizedRundown.
Record t : Type := mk {
  rundown : gmap string OntimeEvent.t;
  order : list string;
  revision : Z;
  totalDelay : Z;
  totalDuration : Z
}.
End NormalizedRundown.

(** What [rundown[id]] can be when it passes [filter(Boolean)]: an event
    of the record, or a member the record inherits from
    [Object.prototype] (the record is a plain object made by
    [JSON.parse]). *)
Inductive RundownEntry : Type :=
| EventEntry (e : OntimeEvent.t)
| InheritedMember (name : string).

Section OrderedRundown.
(** [Boolean(Object.prototype[name])]: whether a plain object inherits a
    truthy member under this name. *)
Variable inherited : string -> bool.

(** [rundown[id]] when it is truthy: the record's own entry first, the
    prototype's member otherwise; [None] for [undefined].  An event is
    an object, so it is truthy. *)
Definition rundown_get (rundown : gmap string OntimeEvent.t) (id : string)
    : option RundownEntry :=
  match rundown !! id with
  | Some e => Some (EventEntry e)
  | None => if inherited id then Some (InheritedMember id) else None
  end.

(** [normalized.order.map(id => normalized.rundown[id]).filter(Boolean)]
    on the response of [getNormalizedRundown] (a rejected request is not
    caught). *)
Definition getOrderedRundown (normalized : NormalizedRundown.t)
    : list RundownEntry :=
  omap (rundown_get (NormalizedRundown.rundown normalized))
       (NormalizedRundown.order normalized).
End OrderedRundown.

(** The members of [Object.prototype]: those of the language standard
    and the legacy accessors every browser has.  All are functions but
    [__proto__], which reads as the prototype itself; all are truthy. *)
Definition Object_prototype_names : list string :=
  [ "constructor"; "hasOwnProperty"; "isPrototypeOf"; "propertyIsEnumerable";
    "toLocaleString"; "toString"; "valueOf"; "__proto__";
    "__defineGetter__"; "__defineSetter__"; "__lookupGetter__";
    "__lookupSetter__" ].

Definition inObjectPrototype (name : string) : bool :=
  bool_decide (name ∈ Object_prototype_names).

(** ** Custom-field definitions ([useCustomFields]) *)

Inductive FieldType := ft_text | ft_number | ft_boolean | ft_option.

Module CustomField.
Record t : Type := mk {
  id : string;
  label : string;
  type : FieldType;
  colour : option string;
  options : option (list string)
}.
End CustomField.

(** [fieldId.replace(/_/g, ' ')] *)
Fixpoint replaceUnderscores (s : string) : string :=
  match s with
  | EmptyString => EmptyString
  | String c rest =>
      String (if Ascii.eqb c "_"%char then " "%char else c)
             (replaceUnderscores rest)
  end.

Definition isNaN (n : number) : bool :=
  match n with NaN => true | Num _ => false end.

Section CustomFields.
(** [Object.keys] of a custom-field record. *)
Variable Object_keys : gmap string string -> list string.
(** [Number(s)] *)
Variable StringToNumber : string -> number.
(** [String.prototype.trim] *)
Variable trim : string -> string.

(** The type guessed from a value. *)
Definition inferType (fieldValue : string) : FieldType :=
  if String.eqb fieldValue "true" || String.eqb fieldValue "false"
  then ft_boolean
  else if negb (isNaN (StringToNumber fieldValue))
          && negb (String.eqb (trim fieldValue) "")
  then ft_number
  else ft_text.

(** [customFieldsMap.has(fieldId)]; the map is kept as the list of its
    values in insertion order. *)
Definition hasField (fieldId : string) (fields : list CustomField.t) : bool :=
  existsb (fun f => String.eqb (CustomField.id f) fieldId) fields.

(** The body of [Object.keys(event.custom).forEach(fieldId => ...)]. *)
Definition addField (custom : gmap string string)
    (fields : list CustomField.t) (fieldId : string) : list CustomField.t :=
  if hasField fieldId fields then fields
  else
    fields
    ++ [ CustomField.mk fieldId (replaceUnderscores fieldId)
           (inferType (default "" (custom !! fieldId))) None None ].

(** The body of [rundown.forEach(event => ...)]. *)
Definition addEvent (fields : list CustomField.t) (ev : OntimeEvent.t)
    : list CustomField.t :=
  match OntimeEvent.custom ev with
  | Some custom => foldl (addField custom) fields (Object_keys custom)
  | None => fields
  end.

(** [useCustomFields()] on the query result of the rundown. *)
Definition useCustomFields (data : option (list OntimeEvent.t))
    : list CustomField.t :=
  foldl addEvent [] (default [] data).
End CustomFields.

(** ** Time adjustment ([ControlPanel], [useTimeControl],
       [OntimeAPI.addTime], [OntimeAPI.removeTime]) *)

(** A request given to [httpClient.post]. *)
Record PostRequest : Type := {
  url : string;
  body : value
}.

(** [addTime(seconds)] *)
Definition addTime (seconds : Z) : PostRequest :=
  {| url := "/playback/addtime"; body := VObj [("seconds", VNum seconds)] |}.

(** [removeTime(seconds)] *)
Definition removeTime (seconds : Z) : PostRequest :=
  {| url := "/playback/removetime"; body := VObj [("seconds", VNum seconds)] |}.

(** [handleTimeAdjustment(seconds)]: the request it issues. *)
Definition handleTimeAdjustment (seconds : Z) : PostRequest :=
  if (0 <? seconds)%Z then addTime seconds else removeTime (Z.abs seconds).

Section TimeInput.
(** [parseInt] *)
Variable parseInt : string -> number.

(** [handleTimeInput()]: the requests issued and the new content of the
    input. *)
Definition handleTimeInput (timeInput : string) : list PostRequest * string :=
  match parseInt timeInput with
  | Num seconds =>
      if negb (seconds =? 0)%Z then ([handleTimeAdjustment seconds], "")
      else ([], timeInput)
  | NaN => ([], timeInput)
  end.
End TimeInput.

(** ** Definitions used by the further properties *)

(** The status the position of an event gives it when the event at
    position [k] is the selected one. *)
Definition status_at (k n : nat) (e : OntimeEvent.t) : EventStatus :=
  if OntimeEvent.skip e then skipped
  else if bool_decide (n = k) then active
  else if bool_decide (n < k) then completed
  else upcoming.

(** The frames of [frames] arriving one after the other at an instance
    whose only subscriber is the hook's. *)
Definition receive (JSON_parse : string -> option value)
    (toLowerCase : string -> string) (frames : list string)
    (e : Effects HookState) : Effects HookState :=
  foldl (fun e data =>
           onmessage JSON_parse toLowerCase data [runtimeDataListener] e)
        e frames.

(** How far a socket is in its life. *)
Definition rank (st : ReadyState) : nat :=
  match st with
  | CONNECTING => 0
  | OPEN => 1
  | CLOSING => 2
  | CLOSED => 3
  end.

(** The number of [open] events in a trace. *)
Fixpoint opens {St : Type} (trace : list (Event St)) : nat :=
  match trace with
  | [] => 0
  | SockOpen _ :: rest => Datatypes.S (opens rest)
  | _ :: rest => opens rest
  end.

(** The state requests [onopen] sends, as they appear in the outbox when
    socket [i] is the one held. *)
Definition probeFrames (i : nat) : list (nat * string * value) :=
  [ (i, "get-runtime", VObj []); (i, "get-timer", VObj []);
    (i, "get-playback", VObj []); (i, "poll-runtime", VObj []);
    (i, "ontime-poll", VObj []) ].

(** Interval handles are never reused: the armed ones are distinct and
    below the next handle. *)
Definition handles_fresh {S : Type} (w : World S) : Prop :=
  NoDup (intervals w).*1
  /\ Forall (fun p => p.1 < nextTimer w) (intervals w).

(** A trace without a call of [onRuntimeDataUpdate]. *)
Definition no_subscribe {S : Type} (trace : list (Event S)) : Prop :=
  Forall (fun ev => match ev with CallSubscribe _ => False | _ => True end)
    trace.

(** A trace without a call of [disconnectWebSocket]. *)
Definition no_disconnect {S : Type} (trace : list (Event S)) : Prop :=
  Forall (fun ev => ev <> CallDisconnect) trace.

(** Every socket of [before] is still there in [after], and no earlier
    in its life. *)
Definition forward (before after : list ReadyState) : Prop :=
  forall (i : nat) st,
    before !! i = Some st ->
    exists st', after !! i = Some st' /\ rank st <= rank st'.

(** Every frame in the outbox went to a socket that had opened. *)
Definition sent_on_opened {S : Type} (w : World S) : Prop :=
  forall i topic payload,
    (i, topic, payload) ∈ outbox w ->
    exists st, sockets w !! i = Some st /\ st <> CONNECTING.

(** What a run over keys keeps: the fields there were, the distinctness
    of ids, and the shape of every field. *)
Definition well_formed (fields : list CustomField.t) : Prop :=
  NoDup (CustomField.id <$> fields)
  /\ Forall (fun f => CustomField.label f = replaceUnderscores (CustomField.id f)
                      /\ CustomField.colour f = None
                      /\ CustomField.options f = None) fields.

(** ** Concrete data for the further properties *)

(** [Object.keys] of a record held as a finite map: its keys, in the
    order the map lists them. *)
Definition keysOf (m : gmap string string) : list string :=
  (map_to_list m).*1.

(** A frame in the [{type, data}] format. *)
Definition typeDataFrame : value :=
  VObj [("type", VStr "timer"); ("data", timerOnlyPayload)].

(** A normalized rundown of two events, served in the order [21313f],
    [421b5a]. *)
Definition scenarioNormalized : NormalizedRundown.t :=
  NormalizedRundown.mk
    (list_to_map [ ("421b5a", sampleEvent "421b5a" false (Some 300%Z) None);
                   ("21313f", sampleEvent "21313f" false (Some 600%Z) None) ])
    ["21313f"; "421b5a"] 1 0 900.

(** The same rundown, with an id in [order] that has no event. *)
Definition danglingNormalized : NormalizedRundown.t :=
  NormalizedRundown.mk (NormalizedRundown.rundown scenarioNormalized)
    ["21313f"; "deleted"; "421b5a"] 2 0 900.

(** The same rundown, with an id in [order] that has no event and is the
    name of a member of [Object.prototype]. *)
Definition prototypeNormalized : NormalizedRundown.t :=
  NormalizedRundown.mk (NormalizedRundown.rundown scenarioNormalized)
    ["21313f"; "constructor"; "421b5a"] 3 0 900.

(** Three events: the first has no custom fields, the other two have a
    value under [Image_Test]. *)
Definition fieldRundown : list OntimeEvent.t :=
  [ sampleEvent "421b5a" false None None;
    sampleEvent "21313f" false None (Some {[ "Image_Test" := "true" ]});
    sampleEvent "146dc4" false None (Some {[ "Image_Test" := "a.png" ]}) ].

(** * Properties *)

(** ** Event status derivation *)

Section DeriverProperties.
Variable StringToNumber : string -> number.

Lemma map_index_lookup rundown runtimeData (l : list OntimeEvent.t) :
  forall (i : Z) rs (n : nat) e,
    map_index StringToNumber rundown runtimeData i l = Some rs ->
    l !! n = Some e ->
    exists r,
      deriveOne StringToNumber rundown runtimeData e (i + Z.of_nat n)%Z = Some r
      /\ rs !! n = Some r.
Proof.
  induction l as [|e0 rest IH]; intros i rs n e Hmap Hn; [done|].
  simpl in Hmap.
  destruct (deriveOne StringToNumber rundown runtimeData e0 i) as [r0|] eqn:H0;
    [|done].
  destruct (map_index StringToNumber rundown runtimeData (i + 1) rest)
    as [rs'|] eqn:Hrest; [|done].
  injection Hmap as <-. destruct n as [|n]; simpl in *.
  - injection Hn as <-. exists r0. by rewrite Z.add_0_r.
  - destruct (IH _ _ _ _ Hrest Hn) as (r & Hr & Hl).
    exists r. split; [|exact Hl]. rewrite <- Hr. f_equal. lia.
Qed.

Lemma map_index_length rundown runtimeData (l : list OntimeEvent.t) :
  forall (i : Z) rs,
    map_index StringToNumber rundown runtimeData i l = Some rs ->
    length rs = length l.
Proof.
  induction l as [|e0 rest IH]; intros i rs Hmap; simpl in Hmap.
  - by injection Hmap as <-.
  - destruct (deriveOne _ _ _ _ _); [|done].
    destruct (map_index _ _ _ _ rest) as [rs'|] eqn:Hrest; [|done].
    injection Hmap as <-. simpl. f_equal. by eapply IH.
Qed.

(** The derivation returns when the callback does on every event. *)
Lemma map_index_total rundown runtimeData (l : list OntimeEvent.t) :
  forall (i : Z),
    (forall (n : nat) e, l !! n = Some e ->
       is_Some (deriveOne StringToNumber rundown runtimeData e
                  (i + Z.of_nat n)%Z)) ->
    is_Some (map_index StringToNumber rundown runtimeData i l).
Proof.
  induction l as [|e0 rest IH]; intros i H; simpl; [done|].
  destruct (H 0%nat e0 eq_refl) as [r0 H0]. rewrite Z.add_0_r in H0.
  rewrite H0. destruct (IH (i + 1)%Z) as [rs Hrs].
  - intros n e Hn. specialize (H (Datatypes.S n) e Hn).
    by replace (i + 1 + Z.of_nat n)%Z with (i + Z.of_nat (Datatypes.S n))%Z
      by lia.
  - by rewrite Hrs.
Qed.

(** The callback throws only in the subtraction: it returns whenever
    the timer value of the snapshot converts to a number. *)
Lemma deriveOne_total rundown runtimeData e i :
  is_Some (ToNumber StringToNumber (prop (prop runtimeData "timer") "current")) ->
  is_Some (deriveOne StringToNumber rundown runtimeData e i).
Proof.
  intros [c Hc]. unfold deriveOne. rewrite Hc.
  destruct (OntimeEvent.skip e); [done|].
  destruct (strict_eq_str _ _); [|done].
  destruct (OntimeEvent.duration e) as [d|]; simpl.
  - by destruct (negb _ && negb _).
  - by rewrite andb_false_r.
Qed.

Lemma deriveOne_skip rundown runtimeData e i :
  OntimeEvent.skip e = true ->
  deriveOne StringToNumber rundown runtimeData e i
  = Some {| event := e; status := skipped; isRunning := false;
            timeRemaining := None |}.
Proof. intros H. unfold deriveOne. by rewrite H. Qed.

(** No event of the rundown has the id [cur]: [findIndex] answers -1. *)
Lemma findIndex_from_no_match cur (l : list OntimeEvent.t) :
  (forall e, e ∈ l -> strict_eq_str cur (OntimeEvent.id e) = false) ->
  forall i, findIndex_from i cur l = (-1)%Z.
Proof.
  induction l as [|e rest IH]; intros H i; simpl; [done|].
  rewrite H by left. apply IH. intros e' He'. apply H. by right.
Qed.

Lemma strict_eq_str_true v s : strict_eq_str v s = true <-> v = VStr s.
Proof.
  destruct v; simpl; try (split; [done | discriminate]).
  rewrite String.eqb_eq. split; [by intros -> | by intros [= ->]].
Qed.

Lemma strict_eq_str_false v s : strict_eq_str v s = false <-> v <> VStr s.
Proof.
  rewrite <- strict_eq_str_true. by destruct (strict_eq_str v s).
Qed.

(** C6. Skip flag dominance: whatever the rundown and the snapshot, the
    derivation of an event with [skip = true] is [skipped], also when it
    is the selected event and at every position of the rundown; this is
    the entry of the event in every derived list, and a derived list
    exists whenever the timer value of the snapshot converts to a
    number. *)
Theorem C6_skip_dominates data runtimeData (n : nat) (e : OntimeEvent.t) :
  default [] data !! n = Some e ->
  OntimeEvent.skip e = true ->
  let r := {| event := e; status := skipped; isRunning := false;
              timeRemaining := None |} in
  deriveOne StringToNumber (default [] data) runtimeData e (Z.of_nat n) = Some r
  /\ (forall l,
        useEventsWithStatus StringToNumber data runtimeData = Some l ->
        l !! n = Some r)
  /\ (is_Some (ToNumber StringToNumber
                 (prop (prop runtimeData "timer") "current")) ->
      exists l,
        useEventsWithStatus StringToNumber data runtimeData = Some l
        /\ l !! n = Some r).
Proof.
  intros Hn Hskip r.
  assert (Hone : forall i,
            deriveOne StringToNumber (default [] data) runtimeData e i = Some r)
    by (intros i; by apply deriveOne_skip).
  assert (Hall : forall l,
            useEventsWithStatus StringToNumber data runtimeData = Some l ->
            l !! n = Some r).
  { intros l Hl.
    destruct (map_index_lookup _ _ _ _ _ _ _ Hl Hn) as (r' & Hr' & Hln).
    rewrite Hone in Hr'. by injection Hr' as <-. }
  split; [apply Hone|]. split; [exact Hall|].
  intros Hnum.
  destruct (map_index_total (default [] data) runtimeData (default [] data) 0)
    as [l Hl].
  { intros; by apply deriveOne_total. }
  exists l. split; [exact Hl | by apply Hall].
Qed.

(** C10. When the selected event id of the snapshot is [null],
    [undefined] or the id of no event of the rundown, the derivation
    returns a list in which every event with [skip = true] is [skipped]
    and every other event is [upcoming]; no event is [active] or
    [completed]. *)
Theorem C10_no_selection data runtimeData :
  let currentEventId := prop (prop runtimeData "playback") "selectedEventId" in
  currentEventId = VNull \/ currentEventId = VUndefined
  \/ (forall e, e ∈ default [] data -> currentEventId <> VStr (OntimeEvent.id e)) ->
  exists l,
    useEventsWithStatus StringToNumber data runtimeData = Some l
    /\ (forall (n : nat) e,
          default [] data !! n = Some e ->
          exists r,
            l !! n = Some r /\ event r = e
            /\ status r = (if OntimeEvent.skip e then skipped else upcoming))
    /\ Forall (fun r => status r <> active /\ status r <> completed) l.
Proof.
  intros cur H.
  assert (Hno : forall e, e ∈ default [] data ->
                  strict_eq_str cur (OntimeEvent.id e) = false).
  { intros e He. apply strict_eq_str_false.
    destruct H as [-> | [-> | H]]; [done | done | by apply H]. }
  assert (Hone : forall e i, e ∈ default [] data ->
            deriveOne StringToNumber (default [] data) runtimeData e i
            = Some {| event := e;
                      status := if OntimeEvent.skip e then skipped else upcoming;
                      isRunning := false; timeRemaining := None |}).
  { intros e i He. unfold deriveOne. fold cur.
    destruct (OntimeEvent.skip e); [done|].
    rewrite (Hno e He). unfold findIndex.
    by rewrite findIndex_from_no_match. }
  destruct (map_index_total (default [] data) runtimeData (default [] data) 0)
    as [l Hl].
  { intros n e Hn. rewrite Hone by (by eapply list_elem_of_lookup_2). done. }
  assert (Hentry : forall (n : nat) e,
            default [] data !! n = Some e ->
            l !! n = Some {| event := e;
                             status := if OntimeEvent.skip e
                                       then skipped else upcoming;
                             isRunning := false; timeRemaining := None |}).
  { intros n e Hn.
    destruct (map_index_lookup _ _ _ _ _ _ _ Hl Hn) as (r & Hr & Hln).
    rewrite Hone in Hr by (by eapply list_elem_of_lookup_2).
    by injection Hr as <-. }
  exists l. split; [exact Hl|]. split.
  - intros n e Hn. eexists. split; [by apply Hentry|]. by split.
  - apply Forall_lookup. intros n r Hr.
    destruct (default [] data !! n) as [e|] eqn:Hn.
    + rewrite (Hentry n e Hn) in Hr. injection Hr as <-. simpl.
      by destruct (OntimeEvent.skip e).
    + apply lookup_lt_Some in Hr. apply lookup_ge_None in Hn.
      rewrite (map_index_length _ _ _ _ _ Hl) in Hr. lia.
Qed.

(** C2. The end-to-end scenario: rundown order 421b5a, 21313f, 146dc4,
    nothing skipped, 21313f lasting 600 s, and a snapshot that selects
    21313f, plays ([start]) and has 30000 ms on the timer.  The first
    event is completed, the second is active and running with 570000 ms
    remaining, the third is upcoming. *)
Theorem C2_end_to_end (e1 e2 e3 : OntimeEvent.t) runtimeData :
  OntimeEvent.id e1 = "421b5a" ->
  OntimeEvent.id e2 = "21313f" ->
  OntimeEvent.id e3 = "146dc4" ->
  OntimeEvent.skip e1 = false ->
  OntimeEvent.skip e2 = false ->
  OntimeEvent.skip e3 = false ->
  OntimeEvent.duration e2 = Some 600%Z ->
  prop (prop runtimeData "playback") "selectedEventId" = VStr "21313f" ->
  prop (prop runtimeData "playback") "state" = VStr "start" ->
  prop (prop runtimeData "timer") "current" = VNum 30000 ->
  useEventsWithStatus StringToNumber (Some [e1; e2; e3]) runtimeData
  = Some [ {| event := e1; status := completed; isRunning := false;
              timeRemaining := None |};
           {| event := e2; status := active; isRunning := true;
              timeRemaining := Some (Num 570000) |};
           {| event := e3; status := upcoming; isRunning := false;
              timeRemaining := None |} ].
Proof.
  intros I1 I2 I3 S1 S2 S3 D Hsel Hstate Hcur.
  unfold useEventsWithStatus, deriveOne, findIndex; simpl.
  unfold deriveOne, findIndex; simpl.
  rewrite S1, S2, S3, Hsel, Hstate, Hcur, I1, I2, I3, D. reflexivity.
Qed.

End DeriverProperties.

(** ** Frame handling and delivery to the subscribers *)

Section HandlerProperties.
Variable S : Type.
Variable JSON_parse : string -> option value.
Variable toLowerCase : string -> string.

Implicit Types (ls : list (Listener S)) (e : Effects S) (payload : value).

Lemma delivered_log entry e : delivered (log entry e) = delivered e.
Proof. reflexivity. Qed.

Lemma store_log entry e : store (log entry e) = store e.
Proof. reflexivity. Qed.

Lemma console_log entry e : console (log entry e) = console e ++ [entry].
Proof. reflexivity. Qed.

Lemma invoke_delivered l payload e :
  match invoke l payload e with
  | Returned e' | Thrown e' =>
      delivered e' = delivered e ++ [(lid l, payload)]
      /\ console e' = console e
  end.
Proof. unfold invoke. by destruct (callback l payload (store e)). Qed.

(** With a [try] around each call, every subscriber is called once, in
    the order of subscription, whether or not some of them throw. *)
Lemma forEach_try_delivered onError ls payload :
  forall e,
    delivered (forEach_try onError ls payload e)
    = delivered e ++ calls ls payload.
Proof.
  induction ls as [|l rest IH]; intros e; simpl.
  - by rewrite app_nil_r.
  - pose proof (invoke_delivered l payload e) as H.
    destruct (invoke l payload e) as [e'|e']; destruct H as [H _];
      rewrite IH, ?delivered_log, H, <- app_assoc; reflexivity.
Qed.

(** The console only grows. *)
Lemma forEach_try_console onError ls payload :
  forall e, exists more,
    console (forEach_try onError ls payload e) = console e ++ more.
Proof.
  induction ls as [|l rest IH]; intros e; simpl.
  - exists []. by rewrite app_nil_r.
  - pose proof (invoke_delivered l payload e) as H.
    destruct (invoke l payload e) as [e'|e']; destruct H as [_ H].
    + destruct (IH e') as [more Hm]. exists more. by rewrite Hm, H.
    + destruct (IH (log onError e')) as [more Hm]. exists (onError :: more).
      rewrite Hm, console_log, H, <- app_assoc. reflexivity.
Qed.

(** What [onmessage] does with a frame that decodes to an object. *)
Lemma onmessage_object data parsedMessage ls e :
  data <> "" ->
  JSON_parse data = Some parsedMessage ->
  is_object parsedMessage = true ->
  exists e0,
    onmessage JSON_parse toLowerCase data ls e
    = handleWebSocketMessage toLowerCase (envelopeOf parsedMessage) ls e0
    /\ store e0 = store e /\ delivered e0 = delivered e.
Proof.
  intros Hdata Hparse Hobj. unfold onmessage, envelopeOf.
  apply String.eqb_neq in Hdata. rewrite Hdata, Hparse.
  unfold is_object in Hobj. apply andb_true_iff in Hobj as [-> ->]. simpl.
  destruct (is_undefined (prop parsedMessage "topic")); simpl;
    [destruct (is_undefined (prop parsedMessage "type")); simpl|];
    eexists; (split; [reflexivity | by split]).
Qed.

(** Only an object has a topic. *)
Lemma has_topic_object message :
  is_nullish (prop message "topic") = false -> is_object message = true.
Proof. by destruct message. Qed.

(** A message with a topic and an object payload reaches every
    subscriber: in the recognised branch, in the unrecognised branch,
    and in the last resort taken when the topic has no text. *)
Lemma handle_object_payload message ls e :
  is_nullish (prop message "topic") = false ->
  is_object (prop message "payload") = true ->
  delivered (handleWebSocketMessage toLowerCase message ls e)
  = delivered e ++ calls ls (prop message "payload").
Proof.
  intros Htopic Hobj. unfold handleWebSocketMessage, lastResort.
  pose proof (has_topic_object message Htopic) as Hm. rewrite Hm.
  pose proof Hm as Hm'. apply andb_true_iff in Hm' as [-> _].
  rewrite Htopic, Hobj. cbn [negb].
  pose proof Hobj as Ht. apply andb_true_iff in Ht as [Ht _].
  unfold or_else. rewrite Ht, Hobj.
  destruct (coerceTopic _) as [t|];
    [destruct (includes validTopics _)|];
    rewrite forEach_try_delivered; by destruct (String.eqb _ _).
Qed.

Lemma envelopeOf_truthy parsedMessage :
  is_object parsedMessage = true -> truthy (envelopeOf parsedMessage) = true.
Proof.
  intros H. unfold envelopeOf. apply andb_true_iff in H as [H _].
  by repeat case_match.
Qed.

(** A message whose topic has the text [t] is recorded under the
    normalised topic. *)
Lemma handle_records message t ls e :
  truthy message = true ->
  is_nullish (prop message "topic") = false ->
  coerceTopic (prop message "topic") = Some t ->
  recorded toLowerCase t (prop message "payload")
  ∈ console (handleWebSocketMessage toLowerCase message ls e).
Proof.
  intros Hm Htopic Ht. unfold handleWebSocketMessage, recorded.
  rewrite Hm, Htopic, Ht. cbn [negb].
  destruct (includes validTopics (normalizeTopic toLowerCase t)).
  - match goal with
    | |- context [log (LogProcessing ?n ?p) ?x] =>
        set (e3 := log (LogProcessing n p) x)
    end.
    assert (He3 : LogProcessing (normalizeTopic toLowerCase t)
                    (prop message "payload") ∈ console e3).
    { unfold e3. rewrite console_log. apply elem_of_app. right. by left. }
    destruct (truthy (prop message "payload")); [|exact He3].
    destruct (forEach_try_console ErrIndividualCallback ls
                (prop message "payload") e3) as [more ->].
    apply elem_of_app. by left.
  - match goal with
    | |- context [log (LogUnknownType ?n ?p) ?x] =>
        set (e3 := log (LogUnknownType n p) x)
    end.
    assert (He3 : LogUnknownType (normalizeTopic toLowerCase t)
                    (prop message "payload") ∈ console e3).
    { unfold e3. rewrite console_log. apply elem_of_app. right. by left. }
    destruct (is_object _); [|exact He3].
    destruct (forEach_try_console ErrUnknownCallback ls
                (prop message "payload") e3) as [more ->].
    apply elem_of_app. by left.
Qed.

(** The unrecognised branch names the normalised topic on the console. *)
Lemma handle_unrecognised_console message t ls e :
  truthy message = true ->
  is_nullish (prop message "topic") = false ->
  coerceTopic (prop message "topic") = Some t ->
  includes validTopics (normalizeTopic toLowerCase t) = false ->
  LogUnknownType (normalizeTopic toLowerCase t) (prop message "payload")
  ∈ console (handleWebSocketMessage toLowerCase message ls e).
Proof.
  intros Hm Htopic Ht Hvalid.
  pose proof (handle_records message t ls e Hm Htopic Ht) as H.
  unfold recorded in H. by rewrite Hvalid in H.
Qed.


Lemma primitive_not_object v :
  primitive v -> negb (truthy v) || negb (String.eqb (typeof v) "object") = true.
Proof. destruct v; simpl; try done; intros _; by rewrite orb_true_r. Qed.

(** C8, as the handler has it. A frame that parses but decodes to a
    primitive is discarded with a warning: no subscriber is called and
    the subscribers' state is unchanged.  The wrapper
    [{topic: "unknown-data", payload: value}] is made for decoded objects
    and arrays that have neither a [topic] nor a [type]; these reach
    every subscriber. *)
Theorem C8_primitive_discarded_object_wrapped data v ls e :
  data <> "" ->
  JSON_parse data = Some v ->
  (primitive v ->
     onmessage JSON_parse toLowerCase data ls e
     = log (WarnInvalidStructure v) (log (LogRawData data) e)
     /\ delivered (onmessage JSON_parse toLowerCase data ls e) = delivered e
     /\ store (onmessage JSON_parse toLowerCase data ls e) = store e)
  /\ (is_object v = true ->
      prop v "topic" = VUndefined -> prop v "type" = VUndefined ->
      onmessage JSON_parse toLowerCase data ls e
      = handleWebSocketMessage toLowerCase (envelope (VStr "unknown-data") v)
          ls (log (LogDirectData v) (log (LogRawData data) e))
      /\ delivered (onmessage JSON_parse toLowerCase data ls e)
         = delivered e ++ calls ls v).
Proof.
  intros Hdata Hparse. apply String.eqb_neq in Hdata. split.
  - intros Hprim. unfold onmessage.
    rewrite Hdata, Hparse, (primitive_not_object v Hprim). done.
  - intros Hobj Htopic Htype.
    assert (Hrun : onmessage JSON_parse toLowerCase data ls e
      = handleWebSocketMessage toLowerCase (envelope (VStr "unknown-data") v)
          ls (log (LogDirectData v) (log (LogRawData data) e))).
    { unfold onmessage. rewrite Hdata, Hparse, Htopic, Htype.
      unfold is_object in Hobj. by apply andb_true_iff in Hobj as [-> ->]. }
    split; [exact Hrun|]. rewrite Hrun.
    by rewrite handle_object_payload.
Qed.


End HandlerProperties.

(** C1, as the hook has it. The subscriber of [useWebSocketConnection]
    stores the payload itself: after a recognised message with a truthy
    payload the snapshot is the payload, so every slice of the snapshot
    is that slice of the payload and a slice the payload lacks is
    [undefined] afterwards; with a falsy payload the snapshot is kept. *)
Theorem C1_snapshot_is_last_payload toLowerCase message t
    (e : Effects HookState) :
  let topic := prop message "topic" in
  let payload := prop message "payload" in
  let e' := handleWebSocketMessage toLowerCase message [runtimeDataListener] e in
  truthy message = true ->
  is_nullish topic = false ->
  coerceTopic topic = Some t ->
  includes validTopics (normalizeTopic toLowerCase t) = true ->
  (truthy payload = true ->
     snapshot e' = payload /\ forall k, slice k (snapshot e') = slice k payload)
  /\ (truthy payload = false -> snapshot e' = snapshot e).
Proof.
  intros topic payload e' Hm Hnull Ht Hvalid.
  assert (He' : exists e0,
             store e0 = store e
             /\ e' = if truthy payload
                     then forEach_try ErrIndividualCallback
                            [runtimeDataListener] payload e0
                     else e0).
  { unfold e', handleWebSocketMessage. fold topic payload.
    rewrite Hm, Hnull, Ht, Hvalid. cbn [negb].
    eexists. split; [|reflexivity]. by destruct (String.eqb _ _). }
  destruct He' as (e0 & Hstore & ->).
  split; intros Hp; rewrite Hp.
  - by split.
  - unfold snapshot. by rewrite Hstore.
Qed.

(** ** Connection manager *)

Section ManagerProperties.
Variable S : Type.
Variable JSON_parse : string -> option value.
Variable toLowerCase : string -> string.

Implicit Types (w : World S) (ev : Event S) (trace : list (Event S)).

Lemma armed_app kind (l1 l2 : list (nat * IntervalKind)) :
  (filter (fun p => p.2 = kind) (l1 ++ l2)).*1
  = (filter (fun p => p.2 = kind) l1).*1 ++ (filter (fun p => p.2 = kind) l2).*1.
Proof. by rewrite filter_app, fmap_app. Qed.

Lemma armed_clear kind t (l : list (nat * IntervalKind)) :
  (filter (fun p => p.2 = kind) (filter (fun p => p.1 ≠ t) l)).*1
  = filter (fun t' => t' ≠ t) (filter (fun p => p.2 = kind) l).*1.
Proof.
  induction l as [|[t' k] l IH]; [done|].
  destruct (decide (t' = t)) as [->|Hne];
    destruct (decide (k = kind)) as [->|Hk].
  - rewrite (filter_cons_False (fun p => p.1 ≠ t))
      by (simpl; intros H; by apply H).
    rewrite (filter_cons_True (fun p => p.2 = kind)) by done.
    rewrite fmap_cons. simpl.
    rewrite (filter_cons_False (fun t' => t' ≠ t))
      by (simpl; intros H; by apply H).
    exact IH.
  - rewrite (filter_cons_False (fun p => p.1 ≠ t))
      by (simpl; intros H; by apply H).
    rewrite (filter_cons_False (fun p => p.2 = kind)) by done.
    exact IH.
  - rewrite (filter_cons_True (fun p => p.1 ≠ t)) by done.
    rewrite !(filter_cons_True (fun p => p.2 = kind)) by done.
    rewrite !fmap_cons. simpl.
    rewrite (filter_cons_True (fun t' => t' ≠ t)) by done.
    by rewrite IH.
  - rewrite (filter_cons_True (fun p => p.1 ≠ t)) by done.
    rewrite !(filter_cons_False (fun p => p.2 = kind)) by done.
    exact IH.
Qed.

Lemma send_frame topic payload w :
  intervals (sendWebSocketMessage topic payload w) = intervals w
  /\ reconnectInterval (sendWebSocketMessage topic payload w) = reconnectInterval w
  /\ sockets (sendWebSocketMessage topic payload w) = sockets w
  /\ websocket (sendWebSocketMessage topic payload w) = websocket w
  /\ nextTimer (sendWebSocketMessage topic payload w) = nextTimer w.
Proof.
  unfold sendWebSocketMessage.
  destruct (websocket w) eqn:Hw; [destruct (websocket_open w)|]; done.
Qed.

Lemma send_armed kind topic payload w :
  armed kind (sendWebSocketMessage topic payload w) = armed kind w.
Proof. unfold armed. by rewrite (proj1 (send_frame topic payload w)). Qed.

Lemma send_held topic payload w :
  held (sendWebSocketMessage topic payload w) = held w.
Proof.
  unfold held. by rewrite (proj1 (proj2 (send_frame topic payload w))).
Qed.

Lemma setInterval_probe_timers w :
  armed ReconnectTimer (setInterval ProbeTimer w).2 = armed ReconnectTimer w
  /\ held (setInterval ProbeTimer w).2 = held w.
Proof.
  unfold setInterval, armed, held. cbn.
  rewrite armed_app. cbn. by rewrite app_nil_r.
Qed.

Lemma onopen_timers w :
  armed ReconnectTimer (onopen w) = armed ReconnectTimer w
  /\ held (onopen w) = held w.
Proof.
  unfold onopen. cbv zeta.
  rewrite (proj1 (setInterval_probe_timers _)),
          (proj2 (setInterval_probe_timers _)).
  by rewrite !send_armed, !send_held.
Qed.

Lemma probe_timers w :
  armed ReconnectTimer (probe w) = armed ReconnectTimer w
  /\ held (probe w) = held w.
Proof.
  unfold probe. destruct (websocket_open w); [|done].
  by rewrite !send_armed, !send_held.
Qed.

(** [scheduleReconnect] arms a timer only when none is held, and then
    holds its handle. *)
Lemma scheduleReconnect_inv w :
  timer_inv w ->
  timer_inv (scheduleReconnect w)
  /\ length (armed ReconnectTimer (scheduleReconnect w)) = 1.
Proof.
  unfold timer_inv, scheduleReconnect, held, armed.
  destruct (reconnectInterval w) as [t|] eqn:Hr; intros H.
  - rewrite Hr, H. done.
  - cbn. rewrite armed_app, H. cbn. done.
Qed.

Lemma socket_close_timers i w :
  intervals (socket_close i w) = intervals w
  /\ reconnectInterval (socket_close i w) = reconnectInterval w.
Proof. unfold socket_close. by repeat case_match. Qed.

(** [disconnectWebSocket] leaves no reconnection timer armed, holds no
    handle and no socket, and the socket it held is closing or closed. *)
Lemma clearInterval_armed kind t w :
  armed kind (clearInterval t w) = filter (fun t' => t' ≠ t) (armed kind w).
Proof. unfold armed, clearInterval. cbn. apply armed_clear. Qed.

Lemma socket_close_state i w :
  sockets (socket_close i w) !! i ≠ Some OPEN
  /\ sockets (socket_close i w) !! i ≠ Some CONNECTING.
Proof.
  unfold socket_close.
  destruct (sockets w !! i) as [st|] eqn:Hs; [|by rewrite Hs].
  assert (Hlt : i < length (sockets w)) by (by eapply lookup_lt_Some).
  destruct st; cbn; rewrite ?list_lookup_insert_eq by exact Hlt;
    rewrite ?Hs; done.
Qed.

Lemma disconnect_immediate w :
  timer_inv w ->
  armed ReconnectTimer (disconnectWebSocket w) = []
  /\ reconnectInterval (disconnectWebSocket w) = None
  /\ websocket (disconnectWebSocket w) = None
  /\ (forall i, websocket w = Some i ->
        sockets (disconnectWebSocket w) !! i ≠ Some OPEN
        /\ sockets (disconnectWebSocket w) !! i ≠ Some CONNECTING).
Proof.
  intros Hinv. unfold disconnectWebSocket. cbv zeta.
  set (w1 := match reconnectInterval w with
             | Some t => set_reconnectInterval None (clearInterval t w)
             | None => w
             end).
  assert (H1 : armed ReconnectTimer w1 = [] /\ reconnectInterval w1 = None
               /\ websocket w1 = websocket w /\ sockets w1 = sockets w).
  { unfold w1, timer_inv, held in *.
    destruct (reconnectInterval w) as [t|] eqn:Hr; [|done].
    repeat split.
    change (armed ReconnectTimer (clearInterval t w) = []).
    rewrite clearInterval_armed, Hinv, filter_cons_False, filter_nil; [done|].
    intros H. by apply H. }
  destruct H1 as (Ha & Hr & Hw & Hs).
  destruct (websocket w1) as [i|] eqn:Hw1; cbn.
  - unfold armed. cbn.
    rewrite (proj1 (socket_close_timers i w1)),
            (proj2 (socket_close_timers i w1)).
    do 3 (split; [done|]). intros j Hj.
    assert (j = i) as -> by congruence. apply socket_close_state.
  - repeat split; try done; congruence.
Qed.

Lemma step_timer_inv w ev w' :
  timer_inv w -> step JSON_parse toLowerCase w ev = Some w' -> timer_inv w'.
Proof.
  intros Hinv Hstep. destruct ev; simpl in Hstep.
  - injection Hstep as <-. exact Hinv.
  - injection Hstep as <-.
    destruct (disconnect_immediate w Hinv) as (Ha & Hr & _).
    unfold timer_inv, held. by rewrite Ha, Hr.
  - injection Hstep as <-. unfold onRuntimeDataUpdate.
    by destruct (existsb _ _).
  - injection Hstep as <-. exact Hinv.
  - destruct (sockets w !! i) as [[]|]; try done. injection Hstep as <-.
    unfold timer_inv.
    rewrite (proj1 (onopen_timers _)), (proj2 (onopen_timers _)). exact Hinv.
  - destruct (sockets w !! i) as [[]|]; try done. injection Hstep as <-.
    exact Hinv.
  - destruct (sockets w !! i) as [[]|]; try done; injection Hstep as <-;
      exact Hinv.
  - destruct (sockets w !! i) as [[]|]; try done; injection Hstep as <-;
      by apply scheduleReconnect_inv.
  - destruct (interval_kind t w) as [[]|]; try done; injection Hstep as <-.
    + exact Hinv.
    + unfold timer_inv.
      rewrite (proj1 (probe_timers _)), (proj2 (probe_timers _)). exact Hinv.
Qed.

Lemma run_timer_inv trace :
  forall w w',
    timer_inv w -> run JSON_parse toLowerCase w trace = Some w' -> timer_inv w'.
Proof.
  induction trace as [|ev rest IH]; intros w w' Hinv Hrun; simpl in Hrun.
  - by injection Hrun as <-.
  - destruct (step JSON_parse toLowerCase w ev) as [w1|] eqn:Hstep; [|done].
    eapply IH; [|exact Hrun]. by eapply step_timer_inv.
Qed.

Lemma init_timer_inv (s : S) : timer_inv (init s).
Proof. reflexivity. Qed.

(** C4, as the manager has it. In every reachable state at most one
    reconnection timer is armed, and it is the one whose handle the
    instance holds; after the [close] event of a socket exactly one is
    armed; [disconnectWebSocket] disarms it. *)
Theorem C4_single_reconnect_timer (s : S) trace w :
  run JSON_parse toLowerCase (init s) trace = Some w ->
  length (armed ReconnectTimer w) <= 1
  /\ armed ReconnectTimer w = held w
  /\ (forall i w',
        step JSON_parse toLowerCase w (SockClose i) = Some w' ->
        length (armed ReconnectTimer w') = 1)
  /\ armed ReconnectTimer (disconnectWebSocket w) = [].
Proof.
  intros Hrun.
  assert (Hinv : timer_inv w)
    by (eapply run_timer_inv; [apply init_timer_inv | exact Hrun]).
  split; [|split; [exact Hinv | split]].
  - rewrite Hinv. unfold held. destruct (reconnectInterval w); simpl; lia.
  - intros i w' Hstep. simpl in Hstep.
    destruct (sockets w !! i) as [[]|]; try done; injection Hstep as <-;
      by apply scheduleReconnect_inv.
  - by apply disconnect_immediate.
Qed.

End ManagerProperties.


(** ** Custom-field editing *)

Section CustomFieldProperties.
Variable patch : string -> value -> Settled.


End CustomFieldProperties.

(** * The handlers on concrete frames and traces *)

(** ** The snapshot after a timer-only update *)

(** C1, counterexample. The snapshot has a timer and a playback
    slice; a recognised message ([timer]) arrives whose payload has a
    timer slice only.  Afterwards the snapshot has no playback slice:
    the slice was not kept. *)
Lemma C1_timer_only_update_drops_playback :
  let message := envelope (VStr "timer") timerOnlyPayload in
  let e := hookEffects scenarioSnapshot in
  let e' := handleWebSocketMessage toLowerCase_ascii message
              [runtimeDataListener] e in
  coerceTopic (prop message "topic") = Some "timer"
  /\ includes validTopics (normalizeTopic toLowerCase_ascii "timer") = true
  /\ slice "playback" (prop message "payload") = VUndefined
  /\ slice "playback" (snapshot e)
     = VObj [("state", VStr "start"); ("selectedEventId", VStr "21313f")]
  /\ slice "playback" (snapshot e') = VUndefined
  /\ slice "playback" (snapshot e') <> slice "playback" (snapshot e).
Proof. repeat split; try reflexivity. discriminate. Qed.

(** C1 on the timer-only update: the snapshot is the payload. *)
Lemma C1_snapshot_is_last_payload_witness :
  let message := envelope (VStr "timer") timerOnlyPayload in
  let e' := handleWebSocketMessage toLowerCase_ascii message
              [runtimeDataListener] (hookEffects scenarioSnapshot) in
  (truthy timerOnlyPayload = true ->
     snapshot e' = timerOnlyPayload
     /\ forall k, slice k (snapshot e') = slice k timerOnlyPayload)
  /\ (truthy timerOnlyPayload = false ->
      snapshot e' = snapshot (hookEffects scenarioSnapshot)).
Proof.
  apply (C1_snapshot_is_last_payload toLowerCase_ascii
           (envelope (VStr "timer") timerOnlyPayload) "timer"
           (hookEffects scenarioSnapshot)); reflexivity.
Defined.

(** ** The status derivation on the scenario *)

(** C2 on the scenario data. *)
Lemma C2_end_to_end_witness :
  useEventsWithStatus noNumber (Some scenarioRundown) scenarioSnapshot
  = Some [ {| event := sampleEvent "421b5a" false (Some 300%Z) None;
              status := completed; isRunning := false;
              timeRemaining := None |};
           {| event := sampleEvent "21313f" false (Some 600%Z) None;
              status := active; isRunning := true;
              timeRemaining := Some (Num 570000) |};
           {| event := sampleEvent "146dc4" false None None;
              status := upcoming; isRunning := false;
              timeRemaining := None |} ].
Proof.
  apply (C2_end_to_end noNumber
           (sampleEvent "421b5a" false (Some 300%Z) None)
           (sampleEvent "21313f" false (Some 600%Z) None)
           (sampleEvent "146dc4" false None None) scenarioSnapshot);
    reflexivity.
Defined.

(** C6 on a rundown whose selected event carries the flag: it is
    skipped, not active. *)
Lemma C6_skip_dominates_witness :
  let data := Some [ sampleEvent "421b5a" false None None;
                     sampleEvent "21313f" true (Some 600%Z) None ] in
  let r := {| event := sampleEvent "21313f" true (Some 600%Z) None;
              status := skipped; isRunning := false; timeRemaining := None |} in
  deriveOne noNumber (default [] data) scenarioSnapshot
    (sampleEvent "21313f" true (Some 600%Z) None) 1 = Some r
  /\ (forall l,
        useEventsWithStatus noNumber data scenarioSnapshot = Some l ->
        l !! 1%nat = Some r)
  /\ (is_Some (ToNumber noNumber (prop (prop scenarioSnapshot "timer") "current")) ->
      exists l,
        useEventsWithStatus noNumber data scenarioSnapshot = Some l
        /\ l !! 1%nat = Some r).
Proof.
  apply (C6_skip_dominates noNumber
           (Some [ sampleEvent "421b5a" false None None;
                   sampleEvent "21313f" true (Some 600%Z) None ])
           scenarioSnapshot 1 (sampleEvent "21313f" true (Some 600%Z) None));
    reflexivity.
Defined.

(** C10 before the first update, when the snapshot is [null]. *)
Lemma C10_no_selection_witness :
  exists l,
    useEventsWithStatus noNumber (Some scenarioRundown) VNull = Some l
    /\ (forall (n : nat) e,
          scenarioRundown !! n = Some e ->
          exists r,
            l !! n = Some r /\ event r = e
            /\ status r = (if OntimeEvent.skip e then skipped else upcoming))
    /\ Forall (fun r => status r <> active /\ status r <> completed) l.
Proof.
  apply (C10_no_selection noNumber (Some scenarioRundown) VNull).
  right. left. reflexivity.
Defined.

(** ** Frames *)

(** C8, counterexample. The frame [5] parses to a number.  It is not
    wrapped and forwarded: no subscriber is called and the snapshot
    stays [null], whereas the handler, given the wrapper
    [{topic: "unknown-data", payload: 5}], would have called the
    subscriber with [5]. *)
Lemma C8_number_frame_is_dropped :
  let parse := parse_table [("5", VNum 5)] in
  let e := hookEffects VNull in
  let e' := onmessage parse toLowerCase_ascii "5" [runtimeDataListener] e in
  parse "5" = Some (VNum 5)
  /\ delivered e' = []
  /\ snapshot e' = VNull
  /\ console e' = [LogRawData "5"; WarnInvalidStructure (VNum 5)]
  /\ delivered (handleWebSocketMessage toLowerCase_ascii
                  (envelope (VStr "unknown-data") (VNum 5))
                  [runtimeDataListener] e) = [(0%nat, VNum 5)].
Proof. repeat split; reflexivity. Qed.

(** C8 on the frame [5]. *)
Lemma C8_primitive_discarded_object_wrapped_witness :
  let parse := parse_table [("5", VNum 5)] in
  let e := hookEffects VNull in
  let ls := [runtimeDataListener] in
  (primitive (VNum 5) ->
     onmessage parse toLowerCase_ascii "5" ls e
     = log (WarnInvalidStructure (VNum 5)) (log (LogRawData "5") e)
     /\ delivered (onmessage parse toLowerCase_ascii "5" ls e) = delivered e
     /\ store (onmessage parse toLowerCase_ascii "5" ls e) = store e)
  /\ (is_object (VNum 5) = true ->
      prop (VNum 5) "topic" = VUndefined -> prop (VNum 5) "type" = VUndefined ->
      onmessage parse toLowerCase_ascii "5" ls e
      = handleWebSocketMessage toLowerCase_ascii
          (envelope (VStr "unknown-data") (VNum 5))
          ls (log (LogDirectData (VNum 5)) (log (LogRawData "5") e))
      /\ delivered (onmessage parse toLowerCase_ascii "5" ls e)
         = delivered e ++ calls ls (VNum 5)).
Proof.
  apply (C8_primitive_discarded_object_wrapped HookState
           (parse_table [("5", VNum 5)]) toLowerCase_ascii "5" (VNum 5)
           [runtimeDataListener] (hookEffects VNull));
    [discriminate | reflexivity].
Defined.




(** A topic that is an object with an entry named [toString] has no
    text: [String] throws, and the last resort broadcasts the payload. *)
Example topic_without_text_takes_last_resort :
  let topic := VObj [("toString", VNum 1)] in
  let message := envelope topic timerOnlyPayload in
  let e' := handleWebSocketMessage toLowerCase_ascii message
              [runtimeDataListener] (hookEffects VNull) in
  coerceTopic topic = None
  /\ console e'
     = [ WarnTopicNotString topic; ErrCritical; ErrStackTrace;
         ErrCausingMessage message; LogLastResort ]
  /\ delivered e' = [(0%nat, timerOnlyPayload)].
Proof. repeat split; reflexivity. Qed.

(** ** Traces of the connection manager *)

(** C3. The hook connects, the socket opens, the hook tears down.
    Right after [disconnectWebSocket] no timer is armed and the socket is
    closing.  Then the [close] event of that socket arrives: [onclose]
    arms the reconnection timer (handle 2; handle 1 is the request timer
    of [onopen]), and its first tick makes a new socket, without any
    call of [connectWebSocket] from outside. *)
Theorem C3_reconnect_after_teardown :
  let go := run (parse_table []) toLowerCase_ascii start in
  observe <$> go [CallConnect; SockOpen 0; CallDisconnect]
    = Some (None, [], None, [CLOSING])
  /\ observe <$> go [CallConnect; SockOpen 0; CallDisconnect; SockClose 0]
    = Some (Some 2, [2], None, [CLOSED])
  /\ observe <$> go [CallConnect; SockOpen 0; CallDisconnect; SockClose 0; Tick 2]
    = Some (Some 2, [2], Some 1, [CLOSED; CONNECTING])
  /\ no_explicit_connect (S := HookState) [SockClose 0; Tick 2].
Proof.
  repeat split; try (vm_compute; reflexivity).
  repeat constructor; discriminate.
Qed.

(** C4, counterexample. A socket opens and closes; the reconnection
    timer (handle 2) ticks and the new socket opens: the timer is still
    armed.  It ticks again and a third socket opens while the second is
    open: two streaming connections are open at once. *)
Lemma C4_timer_survives_and_sockets_pile_up :
  let go := run (parse_table []) toLowerCase_ascii start in
  observe <$> go [CallConnect; SockOpen 0; SockClose 0; Tick 2; SockOpen 1]
    = Some (Some 2, [2], Some 1, [CLOSED; OPEN])
  /\ observe <$> go [CallConnect; SockOpen 0; SockClose 0; Tick 2; SockOpen 1;
                     Tick 2; SockOpen 2]
    = Some (Some 2, [2], Some 2, [CLOSED; OPEN; OPEN])
  /\ open_sockets <$> go [CallConnect; SockOpen 0; SockClose 0; Tick 2;
                          SockOpen 1; Tick 2; SockOpen 2]
    = Some [1; 2].
Proof. repeat split; vm_compute; reflexivity. Qed.

(** C4 on the state after the first close. *)
Lemma C4_single_reconnect_timer_witness :
  exists w,
    run (parse_table []) toLowerCase_ascii start
      [CallConnect; SockOpen 0; SockClose 0] = Some w
    /\ length (armed ReconnectTimer w) <= 1
    /\ armed ReconnectTimer w = held w
    /\ (forall i w',
          step (parse_table []) toLowerCase_ascii w (SockClose i) = Some w' ->
          length (armed ReconnectTimer w') = 1)
    /\ armed ReconnectTimer (disconnectWebSocket w) = [].
Proof.
  eexists. split; [vm_compute; reflexivity|].
  apply (C4_single_reconnect_timer HookState (parse_table []) toLowerCase_ascii
           hookInitial [CallConnect; SockOpen 0; SockClose 0]).
  vm_compute; reflexivity.
Defined.

(** ** The custom-field editor *)



(** * Further properties of the status derivation *)

Section DeriverInvariants.
Variable StringToNumber : string -> number.

Lemma deriveOne_shape rundown runtimeData e i r :
  deriveOne StringToNumber rundown runtimeData e i = Some r ->
  event r = e
  /\ (status r = active \/ (isRunning r = false /\ timeRemaining r = None))
  /\ (status r = active ->
      OntimeEvent.skip e = false
      /\ prop (prop runtimeData "playback") "selectedEventId"
         = VStr (OntimeEvent.id e)).
Proof.
  unfold deriveOne. intros H.
  destruct (OntimeEvent.skip e) eqn:Hskip.
  { injection H as <-. simpl. split; [done|]. split; [by right | done]. }
  destruct (strict_eq_str _ (OntimeEvent.id e)) eqn:Hsel.
  - apply strict_eq_str_true in Hsel.
    destruct (negb _ && _);
      [destruct (OntimeEvent.duration e); [|done];
       destruct (ToNumber _ _); [|done]|];
      injection H as <-; simpl; auto.
  - injection H as <-. simpl. split; [done|]. split; [by right|].
    by destruct (negb _ && _).
Qed.

Lemma map_index_events rundown runtimeData (l : list OntimeEvent.t) :
  forall i rs,
    map_index StringToNumber rundown runtimeData i l = Some rs ->
    event <$> rs = l.
Proof.
  induction l as [|e rest IH]; intros i rs H; simpl in H.
  - by injection H as <-.
  - destruct (deriveOne _ _ _ e i) as [r|] eqn:Hr; [|done].
    destruct (map_index _ _ _ _ rest) as [rs'|] eqn:Hrest; [|done].
    injection H as <-. rewrite fmap_cons.
    rewrite (IH _ _ Hrest). f_equal.
    by destruct (deriveOne_shape _ _ _ _ _ Hr) as [-> _].
Qed.

(** X1. A derived list carries the events of the rundown themselves, in
    the order of the rundown: nothing is dropped, added or reordered. *)
Theorem derivation_keeps_rundown data runtimeData l :
  useEventsWithStatus StringToNumber data runtimeData = Some l ->
  event <$> l = default [] data /\ length l = length (default [] data).
Proof.
  intros H. split; [by eapply map_index_events|].
  by eapply map_index_length.
Qed.

(** X2. Only the active entry carries running state: every entry that
    is not [active] has [isRunning = false] and no [timeRemaining], and
    an [active] entry is an event that is not skipped and whose id is
    the selected id of the snapshot. *)
Theorem running_state_only_on_active data runtimeData l :
  useEventsWithStatus StringToNumber data runtimeData = Some l ->
  Forall (fun r =>
            (status r <> active ->
             isRunning r = false /\ timeRemaining r = None)
            /\ (status r = active ->
                OntimeEvent.skip (event r) = false
                /\ prop (prop runtimeData "playback") "selectedEventId"
                   = VStr (OntimeEvent.id (event r)))) l.
Proof.
  intros H. apply Forall_lookup. intros n r Hn.
  assert (Hlen := map_index_length _ _ _ _ _ _ H).
  destruct (default [] data !! n) as [e|] eqn:He.
  - destruct (map_index_lookup _ _ _ _ _ _ _ _ H He) as (r' & Hr' & Hl).
    rewrite Hn in Hl. injection Hl as <-.
    destruct (deriveOne_shape _ _ _ _ _ Hr') as (-> & Hs & Ha).
    split; [|exact Ha]. intros Hna. by destruct Hs.
  - apply lookup_lt_Some in Hn. apply lookup_ge_None in He. lia.
Qed.

(** The first event with the selected id is where [findIndex] stops. *)
Lemma findIndex_from_unique (l : list OntimeEvent.t) :
  forall i (k : nat) ek,
    l !! k = Some ek ->
    NoDup (OntimeEvent.id <$> l) ->
    findIndex_from i (VStr (OntimeEvent.id ek)) l = (i + Z.of_nat k)%Z.
Proof.
  induction l as [|e rest IH]; intros i k ek Hk Hnd; [done|].
  rewrite fmap_cons in Hnd. apply NoDup_cons in Hnd as [Hnot Hnd].
  destruct k as [|k]; simpl in *.
  - injection Hk as ->. rewrite String.eqb_refl. lia.
  - destruct (String.eqb_spec (OntimeEvent.id ek) (OntimeEvent.id e)) as [Heq|_].
    + exfalso. apply Hnot. rewrite <- Heq.
      apply list_elem_of_fmap. exists ek. split; [done|].
      by eapply list_elem_of_lookup_2.
    + rewrite (IH _ k ek Hk Hnd). lia.
Qed.

(** X3. The rundown is cut at the selected event.  When the ids of the
    rundown are distinct, the snapshot selects the event at position [k]
    and its timer value converts to a number, a list is derived in which
    every skipped event is [skipped] and, of the others, the one at [k]
    is [active], those before it are [completed] and those after it are
    [upcoming]. *)
Theorem selection_cuts_rundown data runtimeData (k : nat) ek :
  NoDup (OntimeEvent.id <$> default [] data) ->
  default [] data !! k = Some ek ->
  prop (prop runtimeData "playback") "selectedEventId"
    = VStr (OntimeEvent.id ek) ->
  is_Some (ToNumber StringToNumber (prop (prop runtimeData "timer") "current")) ->
  exists l,
    useEventsWithStatus StringToNumber data runtimeData = Some l
    /\ forall (n : nat) e,
         default [] data !! n = Some e ->
         exists r, l !! n = Some r /\ event r = e
                   /\ status r = status_at k n e.
Proof.
  intros Hnd Hk Hsel Hnum.
  destruct (map_index_total StringToNumber (default [] data) runtimeData
              (default [] data) 0) as [l Hl].
  { intros; by apply deriveOne_total. }
  exists l. split; [exact Hl|]. intros n e Hn.
  destruct (map_index_lookup _ _ _ _ _ _ _ _ Hl Hn) as (r & Hr & Hln).
  exists r. split; [exact Hln|].
  destruct (deriveOne_shape _ _ _ _ _ Hr) as (Hev & _ & _).
  split; [exact Hev|].
  revert Hr. unfold deriveOne, status_at. rewrite Hsel.
  destruct (OntimeEvent.skip e); [by intros [= <-]|].
  simpl. destruct (String.eqb_spec (OntimeEvent.id ek) (OntimeEvent.id e))
    as [Heq|Hne].
  - assert (n = k) as ->.
    { eapply NoDup_lookup; [exact Hnd| |].
      - rewrite list_lookup_fmap, Hn. simpl. reflexivity.
      - rewrite list_lookup_fmap, Hk. simpl. by rewrite Heq. }
    rewrite bool_decide_eq_true_2 by done.
    destruct (negb _ && _);
      [destruct (OntimeEvent.duration e); [|done];
       destruct (ToNumber _ _); [|done]|];
      by intros [= <-].
  - assert (n <> k) by (intros ->; congruence).
    rewrite bool_decide_eq_false_2 by done.
    unfold findIndex. rewrite (findIndex_from_unique _ 0 k ek Hk Hnd).
    intros [= <-]. simpl.
    destruct (decide (n < k)).
    + rewrite bool_decide_eq_true_2 by done.
      replace (0 + Z.of_nat n <? 0 + Z.of_nat k)%Z with true
        by (symmetry; apply Z.ltb_lt; lia).
      replace (0 + Z.of_nat k =? -1)%Z with false
        by (symmetry; apply Z.eqb_neq; lia). done.
    + rewrite bool_decide_eq_false_2 by done.
      replace (0 + Z.of_nat n <? 0 + Z.of_nat k)%Z with false
        by (symmetry; apply Z.ltb_ge; lia).
      by rewrite andb_false_r.
Qed.

(** X4. The time remaining of the active event is the plain difference
    [duration * 1000 - timer.current]: it is negative once the timer has
    overrun, [null] counts as 0, and there is none when the event has no
    duration, a duration of 0, or the snapshot has no timer value. *)
Theorem time_remaining_of_active rundown runtimeData e i :
  OntimeEvent.skip e = false ->
  prop (prop runtimeData "playback") "selectedEventId"
    = VStr (OntimeEvent.id e) ->
  let current := prop (prop runtimeData "timer") "current" in
  let entry tr :=
    Some {| event := e; status := active;
            isRunning :=
              strict_eq_str (prop (prop runtimeData "playback") "state") "start";
            timeRemaining := tr |} in
  (forall d c, OntimeEvent.duration e = Some d -> d <> 0%Z ->
     current = VNum c ->
     deriveOne StringToNumber rundown runtimeData e i
     = entry (Some (Num (d * 1000 - c))))
  /\ (forall d, OntimeEvent.duration e = Some d -> d <> 0%Z ->
      current = VNull ->
      deriveOne StringToNumber rundown runtimeData e i
      = entry (Some (Num (d * 1000))))
  /\ (OntimeEvent.duration e = None \/ OntimeEvent.duration e = Some 0%Z
      \/ current = VUndefined ->
      deriveOne StringToNumber rundown runtimeData e i = entry None).
Proof.
  intros Hskip Hsel current entry. unfold deriveOne. fold current.
  rewrite Hskip, Hsel. simpl. rewrite String.eqb_refl.
  split; [|split].
  - intros d c -> Hd ->. simpl.
    apply Z.eqb_neq in Hd. by rewrite Hd.
  - intros d -> Hd ->. simpl.
    apply Z.eqb_neq in Hd. rewrite Hd. simpl.
    unfold entry. do 3 f_equal. f_equal. lia.
  - intros [-> | [-> | ->]]; simpl; try done.
    + by rewrite andb_false_r.
    + by rewrite andb_false_r.
Qed.

End DeriverInvariants.

(** * Further properties of the frame handling *)

Section HandlerInvariants.
Variable S : Type.
Variable JSON_parse : string -> option value.
Variable toLowerCase : string -> string.

Implicit Types (ls : list (Listener S)) (e : Effects S) (payload : value).

(** X5. A frame that is empty or does not parse never reaches a
    subscriber: no callback is called, the subscribers' state is
    unchanged, and the only trace is a line on the console. *)
Theorem malformed_frame_is_dropped data ls e :
  data = "" \/ JSON_parse data = None ->
  delivered (onmessage JSON_parse toLowerCase data ls e) = delivered e
  /\ store (onmessage JSON_parse toLowerCase data ls e) = store e
  /\ console (onmessage JSON_parse toLowerCase data ls e)
     = console e ++ [ LogRawData data;
                      if String.eqb data "" then WarnEmptyMessage
                      else ErrParse data ].
Proof.
  intros H. unfold onmessage.
  destruct (String.eqb_spec data "") as [->|Hne].
  - simpl. by rewrite <- app_assoc.
  - destruct H as [H|H]; [done|]. rewrite H. simpl. by rewrite <- app_assoc.
Qed.

(** Without a [try] around each call the iteration stops at the first
    subscriber that throws: the calls made are those of a prefix. *)
Lemma forEach_delivered ls payload :
  forall e, exists ls',
    ls' `prefix_of` ls
    /\ match forEach ls payload e with
       | Returned e' | Thrown e' =>
           delivered e' = delivered e ++ calls ls' payload
       end.
Proof.
  induction ls as [|l rest IH]; intros e; simpl.
  - exists []. split; [done|]. by rewrite app_nil_r.
  - pose proof (invoke_delivered S l payload e) as H.
    destruct (invoke l payload e) as [e'|e']; destruct H as [H _].
    + destruct (IH e') as (ls' & Hpre & Hd). exists (l :: ls').
      split; [by apply prefix_cons|].
      destruct (forEach rest payload e'); rewrite Hd, H, <- app_assoc; done.
    + exists [l]. split; [|exact H].
      apply prefix_cons, prefix_nil.
Qed.

(** What one message makes the handler call. *)
Lemma handle_delivery message ls e :
  exists payload ls',
    ls' `prefix_of` ls
    /\ delivered (handleWebSocketMessage toLowerCase message ls e)
       = delivered e ++ calls ls' payload.
Proof.
  assert (Hnone : forall e', delivered e' = delivered e ->
            exists payload ls', ls' `prefix_of` ls
              /\ delivered e' = delivered e ++ calls ls' payload).
  { intros e' ->. exists VUndefined, []. split; [apply prefix_nil|].
    by rewrite app_nil_r. }
  assert (Hall : forall onError payload e0, delivered e0 = delivered e ->
            exists payload' ls', ls' `prefix_of` ls
              /\ delivered (forEach_try onError ls payload e0)
                 = delivered e ++ calls ls' payload').
  { intros onError payload e0 H0. exists payload, ls. split; [done|].
    by rewrite forEach_try_delivered, H0. }
  unfold handleWebSocketMessage, lastResort.
  destruct (negb (truthy message)); [by apply Hnone|].
  destruct (is_nullish (prop message "topic")).
  - destruct (is_object (prop message "payload")); [|by apply Hnone].
    match goal with
    | |- context [forEach ls ?p ?x] =>
        destruct (forEach_delivered ls p x) as (ls' & Hpre & Hd);
        exists p, ls'; split; [exact Hpre|];
        destruct (forEach ls p x); rewrite ?delivered_log, Hd; done
    end.
  - destruct (coerceTopic _) as [t|].
    + destruct (includes validTopics _).
      * destruct (truthy (prop message "payload")).
        -- apply Hall. by destruct (String.eqb _ _).
        -- apply Hnone. by destruct (String.eqb _ _).
      * destruct (is_object (prop message "payload")).
        -- apply Hall. by destruct (String.eqb _ _).
        -- apply Hnone. by destruct (String.eqb _ _).
    + destruct (is_object message).
      * destruct (is_object (or_else _ _)).
        -- apply Hall. by destruct (String.eqb _ _).
        -- apply Hnone. by destruct (String.eqb _ _).
      * apply Hnone. by destruct (String.eqb _ _).
Qed.

(** X6. Whatever the frame, each subscriber is called at most once for
    it, with one and the same value, and the calls follow the order of
    subscription without a gap: the calls made are those of a prefix of
    the subscriber list. *)
Theorem frame_calls_each_subscriber_at_most_once data ls e :
  exists payload ls',
    ls' `prefix_of` ls
    /\ delivered (onmessage JSON_parse toLowerCase data ls e)
       = delivered e ++ calls ls' payload.
Proof.
  unfold onmessage.
  assert (Hnone : forall e', delivered e' = delivered e ->
            exists payload ls', ls' `prefix_of` ls
              /\ delivered e' = delivered e ++ calls ls' payload).
  { intros e' ->. exists VUndefined, []. split; [apply prefix_nil|].
    by rewrite app_nil_r. }
  destruct (String.eqb data ""); [by apply Hnone|].
  destruct (JSON_parse data) as [pm|]; [|by apply Hnone].
  destruct (negb (truthy pm) || _); [by apply Hnone|].
  destruct (negb (is_undefined (prop pm "topic")));
    [|destruct (negb (is_undefined (prop pm "type")))];
    match goal with
    | |- context [handleWebSocketMessage _ ?m ls ?x] =>
        destruct (handle_delivery m ls x) as (p & ls' & Hpre & Hd);
        exists p, ls'; split; [exact Hpre | by rewrite Hd]
    end.
Qed.

(** X7. A message without a topic ([null] or absent) and with an object
    payload is broadcast without a [try] around each call: when no
    subscriber throws all of them are called, but when the first one
    throws it is the only one called and the others miss the message. *)
Theorem no_topic_broadcast_stops_at_first_throw message ls e :
  truthy message = true ->
  is_nullish (prop message "topic") = true ->
  is_object (prop message "payload") = true ->
  let payload := prop message "payload" in
  let e' := handleWebSocketMessage toLowerCase message ls e in
  ((forall l s, l ∈ ls -> exists s', callback l payload s = Returned s') ->
     delivered e' = delivered e ++ calls ls payload)
  /\ (forall l rest s,
        ls = l :: rest -> callback l payload (store e) = Thrown s ->
        delivered e' = delivered e ++ [(lid l, payload)]
        /\ store e' = s
        /\ last (console e') = Some ErrNoTopicCallback).
Proof.
  intros Hm Htopic Hobj payload e'. unfold e', handleWebSocketMessage.
  rewrite Hm, Htopic, Hobj. cbn [negb]. fold payload. split.
  - intros Hret.
    assert (Hgen : forall e0,
              match forEach ls payload e0 with
              | Returned e2 => delivered e2 = delivered e0 ++ calls ls payload
              | Thrown _ => False
              end).
    { clear e'. induction ls as [|l rest IH]; intros e0; simpl.
      - by rewrite app_nil_r.
      - unfold invoke.
        destruct (Hret l (store e0)) as [s' Hs']; [by left|]. rewrite Hs'.
        match goal with |- context [forEach rest payload ?x] =>
          specialize (IH (fun l0 s0 Hl0 => Hret l0 s0 (list_elem_of_further _ _ _ Hl0)) x);
          destruct (forEach rest payload x); [|done];
          rewrite IH; simpl; by rewrite <- app_assoc
        end. }
    match goal with
    | |- context [forEach ls payload ?x] =>
        specialize (Hgen x); destruct (forEach ls payload x); [|done]
    end.
    by rewrite Hgen.
  - intros l rest s -> Hthrow. simpl. unfold invoke. simpl. rewrite Hthrow.
    simpl. split; [done|]. split; [done|].
    by rewrite last_snoc.
Qed.

Lemma handle_delivery_rule message t ls e :
  truthy message = true ->
  is_nullish (prop message "topic") = false ->
  coerceTopic (prop message "topic") = Some t ->
  let payload := prop message "payload" in
  delivered (handleWebSocketMessage toLowerCase message ls e)
  = delivered e
    ++ (if includes validTopics (normalizeTopic toLowerCase t)
        then (if truthy payload then calls ls payload else [])
        else (if is_object payload then calls ls payload else [])).
Proof.
  intros Hm Htopic Ht payload. unfold handleWebSocketMessage.
  rewrite Hm, Htopic, Ht. cbn [negb]. fold payload.
  destruct (includes validTopics _);
    [destruct (truthy payload) | destruct (is_object payload)];
    rewrite ?forEach_try_delivered, ?delivered_log, ?app_nil_r;
    by destruct (String.eqb _ _).
Qed.



End HandlerInvariants.

Section LastWriteWins.
Variable JSON_parse : string -> option value.
Variable toLowerCase : string -> string.

(** One message at the hook: it is not delivered and nothing changes, or
    it is delivered and the snapshot is its payload. *)
Lemma hook_handle message (e : Effects HookState) :
  let e' := handleWebSocketMessage toLowerCase message [runtimeDataListener] e in
  (delivered e' = delivered e /\ snapshot e' = snapshot e)
  \/ exists payload,
       delivered e' = delivered e ++ [(0%nat, payload)]
       /\ snapshot e' = payload.
Proof.
  unfold handleWebSocketMessage, lastResort.
  destruct (negb (truthy message)); [by left|].
  destruct (is_nullish _).
  { destruct (is_object _); [right; by eexists | by left]. }
  destruct (coerceTopic _) as [t|].
  - destruct (includes validTopics _).
    + destruct (truthy (prop message "payload"));
        [right; eexists | left]; by destruct (String.eqb _ _).
    + destruct (is_object (prop message "payload"));
        [right; eexists | left]; by destruct (String.eqb _ _).
  - destruct (is_object message); [|left; by destruct (String.eqb _ _)].
    destruct (is_object (or_else _ _));
      [right; eexists | left]; by destruct (String.eqb _ _).
Qed.

Lemma hook_onmessage data (e : Effects HookState) :
  let e' := onmessage JSON_parse toLowerCase data [runtimeDataListener] e in
  (delivered e' = delivered e /\ snapshot e' = snapshot e)
  \/ exists payload,
       delivered e' = delivered e ++ [(0%nat, payload)]
       /\ snapshot e' = payload.
Proof.
  unfold onmessage.
  destruct (String.eqb data ""); [by left|].
  destruct (JSON_parse data) as [pm|]; [|by left].
  destruct (negb (truthy pm) || _); [by left|].
  destruct (negb (is_undefined (prop pm "topic")));
    [|destruct (negb (is_undefined (prop pm "type")))];
    match goal with
    | |- context [handleWebSocketMessage _ ?m _ ?x] =>
        destruct (hook_handle m x) as [[Hd Hs]|(p & Hd & Hs)];
        [left | right; exists p]; split; done
    end.
Qed.

(** X10. Last write wins.  After any sequence of frames the snapshot of
    the hook is the payload of the most recent delivery, whatever its
    topic and whatever was delivered before; while nothing has been
    delivered it is the snapshot the hook started with. *)
Theorem snapshot_is_most_recent_delivery frames (e : Effects HookState) :
  delivered e = [] ->
  let e' := receive JSON_parse toLowerCase frames e in
  snapshot e' = default (snapshot e) (last (delivered e').*2).
Proof.
  intros He e'. unfold e', receive.
  assert (Hgen : forall e0,
            snapshot e0 = default (snapshot e) (last (delivered e0).*2) ->
            snapshot (foldl (fun e data =>
                               onmessage JSON_parse toLowerCase data
                                 [runtimeDataListener] e) e0 frames)
            = default (snapshot e)
                (last (delivered
                         (foldl (fun e data =>
                                   onmessage JSON_parse toLowerCase data
                                     [runtimeDataListener] e) e0 frames)).*2)).
  { induction frames as [|data rest IH]; intros e0 H0; simpl; [exact H0|].
    apply IH.
    destruct (hook_onmessage data e0) as [[Hd Hs]|(p & Hd & Hs)].
    - by rewrite Hd, Hs.
    - rewrite Hd, Hs, fmap_app.
      change ([(0%nat, p)].*2) with [p]. by rewrite last_snoc. }
  apply Hgen. by rewrite He.
Qed.

End LastWriteWins.

(** * Further properties of the connection manager *)

Section ManagerInvariants.
Variable S : Type.
Variable JSON_parse : string -> option value.
Variable toLowerCase : string -> string.

Implicit Types (w : World S) (ev : Event S) (trace : list (Event S)).

(** An invariant of one step is an invariant of a run. *)
Lemma run_invariant (P : World S -> Prop) :
  (forall w ev w', P w -> step JSON_parse toLowerCase w ev = Some w' -> P w') ->
  forall trace w w',
    P w -> run JSON_parse toLowerCase w trace = Some w' -> P w'.
Proof.
  intros Hstep. induction trace as [|ev rest IH]; intros w w' HP Hrun;
    simpl in Hrun.
  - by injection Hrun as <-.
  - destruct (step JSON_parse toLowerCase w ev) as [w1|] eqn:Hs; [|done].
    eapply IH; [|exact Hrun]. by eapply Hstep.
Qed.

(** *** What each operation leaves alone *)

Lemma send_websocket topic payload w :
  websocket (sendWebSocketMessage topic payload w) = websocket w.
Proof.
  unfold sendWebSocketMessage.
  destruct (websocket w) eqn:Hw; [destruct (websocket_open w)|]; done.
Qed.

Lemma send_reconnectInterval topic payload w :
  reconnectInterval (sendWebSocketMessage topic payload w)
  = reconnectInterval w.
Proof.
  unfold sendWebSocketMessage.
  destruct (websocket w); [destruct (websocket_open w)|]; done.
Qed.

Lemma send_wsListeners topic payload w :
  wsListeners (sendWebSocketMessage topic payload w) = wsListeners w.
Proof.
  unfold sendWebSocketMessage.
  destruct (websocket w); [destruct (websocket_open w)|]; done.
Qed.

Lemma send_sockets topic payload w :
  sockets (sendWebSocketMessage topic payload w) = sockets w.
Proof.
  unfold sendWebSocketMessage.
  destruct (websocket w); [destruct (websocket_open w)|]; done.
Qed.

Lemma send_intervals topic payload w :
  intervals (sendWebSocketMessage topic payload w) = intervals w.
Proof.
  unfold sendWebSocketMessage.
  destruct (websocket w); [destruct (websocket_open w)|]; done.
Qed.

Lemma send_nextTimer topic payload w :
  nextTimer (sendWebSocketMessage topic payload w) = nextTimer w.
Proof.
  unfold sendWebSocketMessage.
  destruct (websocket w); [destruct (websocket_open w)|]; done.
Qed.

Lemma send_eff topic payload w :
  eff (sendWebSocketMessage topic payload w) = eff w.
Proof.
  unfold sendWebSocketMessage.
  destruct (websocket w); [destruct (websocket_open w)|]; done.
Qed.

Lemma onopen_keeps w :
  websocket (onopen w) = websocket w
  /\ reconnectInterval (onopen w) = reconnectInterval w
  /\ wsListeners (onopen w) = wsListeners w
  /\ sockets (onopen w) = sockets w
  /\ store (eff (onopen w)) = store (eff w)
  /\ delivered (eff (onopen w)) = delivered (eff w)
  /\ intervals (onopen w) = intervals w ++ [(nextTimer w, ProbeTimer)]
  /\ nextTimer (onopen w) = Datatypes.S (nextTimer w).
Proof.
  unfold onopen, setInterval. cbv zeta. cbn.
  rewrite !send_websocket, !send_reconnectInterval, !send_wsListeners,
    !send_sockets, !send_intervals, !send_nextTimer, !send_eff.
  done.
Qed.

Lemma probe_keeps w :
  websocket (probe w) = websocket w
  /\ reconnectInterval (probe w) = reconnectInterval w
  /\ wsListeners (probe w) = wsListeners w
  /\ sockets (probe w) = sockets w
  /\ intervals (probe w) = intervals w
  /\ nextTimer (probe w) = nextTimer w
  /\ eff (probe w) = eff w.
Proof.
  unfold probe. destruct (websocket_open w); [|done].
  rewrite !send_websocket, !send_reconnectInterval, !send_wsListeners,
    !send_sockets, !send_intervals, !send_nextTimer, !send_eff.
  done.
Qed.

Lemma scheduleReconnect_keeps w :
  websocket (scheduleReconnect w) = websocket w
  /\ wsListeners (scheduleReconnect w) = wsListeners w
  /\ sockets (scheduleReconnect w) = sockets w
  /\ outbox (scheduleReconnect w) = outbox w
  /\ eff (scheduleReconnect w) = eff w.
Proof. unfold scheduleReconnect. by destruct (reconnectInterval w). Qed.

Lemma socket_close_keeps i w :
  websocket (socket_close i w) = websocket w
  /\ reconnectInterval (socket_close i w) = reconnectInterval w
  /\ wsListeners (socket_close i w) = wsListeners w
  /\ intervals (socket_close i w) = intervals w
  /\ nextTimer (socket_close i w) = nextTimer w
  /\ outbox (socket_close i w) = outbox w
  /\ eff (socket_close i w) = eff w.
Proof. unfold socket_close. by repeat case_match. Qed.

Lemma disconnect_keeps w :
  eff (disconnectWebSocket w) = eff w
  /\ outbox (disconnectWebSocket w) = outbox w
  /\ nextTimer (disconnectWebSocket w) = nextTimer w
  /\ wsListeners (disconnectWebSocket w) = []
  /\ length (sockets (disconnectWebSocket w)) = length (sockets w).
Proof.
  unfold disconnectWebSocket. cbv zeta.
  destruct (reconnectInterval w) as [t|];
    (destruct (websocket _) as [i|] eqn:Hw; cbn;
     [pose proof (socket_close_keeps i
        (set_reconnectInterval None (clearInterval t w))) as Hk
      || pose proof (socket_close_keeps i w) as Hk;
      destruct Hk as (_ & _ & _ & _ & Hn & Ho & He);
      rewrite He, Ho, Hn; repeat split; try done;
      unfold socket_close; repeat case_match; cbn;
      by rewrite ?length_insert
     | done]).
Qed.

(** *** Teardown and the subscribers *)

Lemma handle_no_listeners message (e : Effects S) :
  store (handleWebSocketMessage toLowerCase message [] e) = store e
  /\ delivered (handleWebSocketMessage toLowerCase message [] e) = delivered e.
Proof.
  unfold handleWebSocketMessage, lastResort. cbn [forEach forEach_try].
  by repeat case_match.
Qed.

Lemma onmessage_no_listeners data (e : Effects S) :
  store (onmessage JSON_parse toLowerCase data [] e) = store e
  /\ delivered (onmessage JSON_parse toLowerCase data [] e) = delivered e.
Proof.
  unfold onmessage.
  repeat case_match; try done;
    match goal with
    | |- context [handleWebSocketMessage _ ?m [] ?x] =>
        by destruct (handle_no_listeners m x) as [-> ->]
    end.
Qed.

(** X11. [disconnectWebSocket] removes every subscriber, not only the
    caller's, and from then on no frame and no timer changes the state
    of any subscriber: along every trace without a new subscription the
    subscribers' state and the record of deliveries stay as they were. *)
Theorem teardown_silences_subscribers w trace w' :
  no_subscribe trace ->
  run JSON_parse toLowerCase (disconnectWebSocket w) trace = Some w' ->
  wsListeners w' = []
  /\ store (eff w') = store (eff w)
  /\ delivered (eff w') = delivered (eff w).
Proof.
  intros Hns Hrun.
  set (P := fun w1 : World S =>
              wsListeners w1 = [] /\ store (eff w1) = store (eff w)
              /\ delivered (eff w1) = delivered (eff w)).
  assert (H0 : P (disconnectWebSocket w)).
  { destruct (disconnect_keeps w) as (He & _ & _ & Hl & _).
    unfold P. by rewrite He, Hl. }
  enough (Hgen : forall w1 w2,
            P w1 -> run JSON_parse toLowerCase w1 trace = Some w2 -> P w2)
    by exact (Hgen _ _ H0 Hrun).
  clear Hrun H0 w'.
  induction trace as [|ev rest IH]; intros w1 w' HP Hrun; simpl in Hrun.
  { by injection Hrun as <-. }
  apply Forall_cons in Hns as [Hev Hrest].
  destruct (step JSON_parse toLowerCase w1 ev) as [w2|] eqn:Hs; [|done].
  apply (IH Hrest w2); [|exact Hrun].
  destruct HP as (Hl & Hst & Hd). unfold P.
  destruct ev; simpl in Hs; try done.
  - by injection Hs as <-.
  - injection Hs as <-.
    destruct (disconnect_keeps w1) as (He & _ & _ & Hl' & _).
    by rewrite He, Hl'.
  - injection Hs as <-. unfold unsubscribe. cbn. by rewrite Hl.
  - destruct (sockets w1 !! i) as [[]|]; try done. injection Hs as <-.
    destruct (onopen_keeps (set_sockets (<[i:=OPEN]> (sockets w1)) w1))
      as (_ & _ & Hl' & _ & Hst' & Hd' & _).
    by rewrite Hl', Hst', Hd'.
  - destruct (sockets w1 !! i) as [[]|]; try done. injection Hs as <-.
    cbn. rewrite Hl.
    destruct (onmessage_no_listeners data (eff w1)) as [-> ->]. done.
  - destruct (sockets w1 !! i) as [[]|]; try done; by injection Hs as <-.
  - destruct (sockets w1 !! i) as [[]|]; try done; injection Hs as <-;
      unfold onclose;
      match goal with
      | |- context [scheduleReconnect ?x] =>
          destruct (scheduleReconnect_keeps x) as (_ & -> & _ & _ & ->)
      end; done.
  - destruct (interval_kind t w1) as [[]|]; try done; injection Hs as <-.
    + done.
    + destruct (probe_keeps w1) as (_ & _ & -> & _ & _ & _ & ->). done.
Qed.

(** *** Sockets *)

Lemma forward_refl l : forward l l.
Proof. intros i st H. by exists st. Qed.

Lemma forward_app l st : forward l (l ++ [st]).
Proof.
  intros i st0 H. exists st0. split; [|done].
  by apply lookup_app_l_Some.
Qed.

Lemma forward_insert l (i : nat) old new :
  l !! i = Some old -> rank old <= rank new -> forward l (<[i := new]> l).
Proof.
  intros Hi Hr j st Hj. destruct (decide (i = j)) as [->|Hne].
  - exists new. rewrite list_lookup_insert_eq by (by eapply lookup_lt_Some).
    split; [done|]. rewrite Hi in Hj. by injection Hj as <-.
  - exists st. by rewrite list_lookup_insert_ne.
Qed.

Lemma socket_close_forward i w :
  forward (sockets w) (sockets (socket_close i w)).
Proof.
  unfold socket_close.
  destruct (sockets w !! i) as [[]|] eqn:Hi; cbn;
    try apply forward_refl; eapply forward_insert; try exact Hi; simpl; lia.
Qed.

Lemma disconnect_sockets w :
  sockets (disconnectWebSocket w)
  = match websocket w with
    | Some i => sockets (socket_close i w)
    | None => sockets w
    end.
Proof.
  unfold disconnectWebSocket. cbv zeta.
  destruct (reconnectInterval w) as [t|]; cbn;
    destruct (websocket w) as [i|]; cbn; try done;
    unfold socket_close; cbn; by repeat case_match.
Qed.

Lemma disconnect_websocket w : websocket (disconnectWebSocket w) = None.
Proof.
  unfold disconnectWebSocket. cbv zeta.
  destruct (reconnectInterval w) as [t|]; cbn;
    destruct (websocket w) as [i|] eqn:Hw; cbn; rewrite ?Hw; done.
Qed.

Lemma step_forward w ev w' :
  step JSON_parse toLowerCase w ev = Some w' ->
  forward (sockets w) (sockets w').
Proof.
  intros Hs. destruct ev; simpl in Hs.
  - injection Hs as <-. apply forward_app.
  - injection Hs as <-. rewrite disconnect_sockets.
    destruct (websocket w); [apply socket_close_forward | apply forward_refl].
  - injection Hs as <-. unfold onRuntimeDataUpdate.
    destruct (existsb _ _); apply forward_refl.
  - injection Hs as <-. apply forward_refl.
  - destruct (sockets w !! i) as [[]|] eqn:Hi; try done. injection Hs as <-.
    destruct (onopen_keeps (set_sockets (<[i:=OPEN]> (sockets w)) w))
      as (_ & _ & _ & -> & _).
    eapply forward_insert; [exact Hi | simpl; lia].
  - destruct (sockets w !! i) as [[]|]; try done. injection Hs as <-.
    apply forward_refl.
  - destruct (sockets w !! i) as [[]|]; try done; injection Hs as <-;
      apply forward_refl.
  - destruct (sockets w !! i) as [[]|] eqn:Hi; try done; injection Hs as <-;
      unfold onclose;
      match goal with
      | |- context [scheduleReconnect ?x] =>
          destruct (scheduleReconnect_keeps x) as (_ & _ & -> & _)
      end; (eapply forward_insert; [exact Hi | simpl; lia]).
  - destruct (interval_kind t w) as [[]|]; try done; injection Hs as <-.
    + apply forward_app.
    + destruct (probe_keeps w) as (_ & _ & _ & -> & _). apply forward_refl.
Qed.

(** X12. Sockets only move forward.  Along every trace a socket keeps
    its place and goes from connecting to open to closing to closed,
    never back: a closed socket is never reopened, so every reconnection
    is a new socket. *)
Theorem sockets_only_move_forward w trace w' :
  run JSON_parse toLowerCase w trace = Some w' ->
  forward (sockets w) (sockets w')
  /\ (forall i, sockets w !! i = Some CLOSED -> sockets w' !! i = Some CLOSED)
  /\ length (sockets w) <= length (sockets w').
Proof.
  intros Hrun.
  assert (Hf : forward (sockets w) (sockets w')).
  { revert w Hrun. induction trace as [|ev rest IH]; intros w Hrun;
      simpl in Hrun.
    - injection Hrun as <-. apply forward_refl.
    - destruct (step JSON_parse toLowerCase w ev) as [w1|] eqn:Hs; [|done].
      intros i st Hi.
      destruct (step_forward _ _ _ Hs i st Hi) as (st1 & H1 & Hr1).
      destruct (IH _ Hrun i st1 H1) as (st2 & H2 & Hr2).
      exists st2. split; [done | lia]. }
  split; [exact Hf|]. split.
  - intros i Hi. destruct (Hf i CLOSED Hi) as (st' & -> & Hr).
    destruct st'; simpl in Hr; try lia. done.
  - destruct (decide (length (sockets w) <= length (sockets w')));
      [done|exfalso].
    destruct (sockets w !! (length (sockets w) - 1)) as [st|] eqn:Hl.
    + destruct (Hf _ _ Hl) as (st' & H' & _).
      apply lookup_lt_Some in H'. lia.
    + apply lookup_ge_None in Hl. lia.
Qed.

(** X13. The [close] event of any socket, also of one the instance no
    longer holds, leaves the instance without a socket:
    [isWebSocketConnected] is false and every send is dropped.  The
    socket that closed is closed, and the other sockets stay as they
    are; one of them that was held and open is still open, but no
    longer held. *)
Theorem close_event_drops_held_socket w i w' :
  step JSON_parse toLowerCase w (SockClose i) = Some w' ->
  websocket w' = None
  /\ websocket_open w' = false
  /\ (forall topic payload, sendWebSocketMessage topic payload w' = w')
  /\ sockets w' !! i = Some CLOSED
  /\ (forall j, j <> i -> sockets w' !! j = sockets w !! j).
Proof.
  intros Hs. simpl in Hs.
  assert (Hw' : w' = onclose (set_sockets (<[i:=CLOSED]> (sockets w)) w)
                /\ i < length (sockets w)).
  { destruct (sockets w !! i) as [st|] eqn:Hi; [|done].
    apply lookup_lt_Some in Hi. by destruct st; try injection Hs as <-. }
  destruct Hw' as [Hw' Hlt].
  assert (Hkeep : websocket w' = None
                  /\ sockets w' = <[i:=CLOSED]> (sockets w)).
  { rewrite Hw'. unfold onclose.
    match goal with
    | |- context [scheduleReconnect ?x] =>
        by destruct (scheduleReconnect_keeps x) as (-> & _ & -> & _)
    end. }
  destruct Hkeep as [Hnone Hsockets].
  split; [exact Hnone|]. split; [|split; [|split]].
  - unfold websocket_open. by rewrite Hnone.
  - intros topic payload. unfold sendWebSocketMessage. by rewrite Hnone.
  - rewrite Hsockets. by apply list_lookup_insert_eq.
  - intros j Hne. rewrite Hsockets. by apply list_lookup_insert_ne.
Qed.

(** *** The outbox *)

Lemma send_sent_on_opened topic payload w :
  sent_on_opened w -> sent_on_opened (sendWebSocketMessage topic payload w).
Proof.
  intros Hinv. unfold sendWebSocketMessage.
  destruct (websocket w) as [h|] eqn:Hw; [|done].
  destruct (websocket_open w) eqn:Hopen; [|done].
  intros i t p. cbn. rewrite elem_of_app, list_elem_of_singleton.
  intros [Hin | Heq]; [by eapply Hinv|]. injection Heq as -> -> ->.
  unfold websocket_open in Hopen. rewrite Hw in Hopen.
  apply bool_decide_eq_true in Hopen. exists OPEN. by split.
Qed.

Lemma forward_sent_on_opened w w' :
  sent_on_opened w -> outbox w' = outbox w ->
  forward (sockets w) (sockets w') -> sent_on_opened w'.
Proof.
  intros Hinv Ho Hf i t p Hin. rewrite Ho in Hin.
  destruct (Hinv i t p Hin) as (st & Hst & Hne).
  destruct (Hf i st Hst) as (st' & Hst' & Hr).
  exists st'. split; [done|]. intros ->. destruct st; simpl in Hr; try lia.
  done.
Qed.

Lemma onopen_sent_on_opened w : sent_on_opened w -> sent_on_opened (onopen w).
Proof.
  intros Hinv. unfold onopen. cbv zeta.
  assert (Hset : forall w0 : World S,
            sent_on_opened w0 -> sent_on_opened (setInterval ProbeTimer w0).2).
  { intros w0 H0 i t p Hin. exact (H0 i t p Hin). }
  apply Hset. do 5 apply send_sent_on_opened.
  intros i t p Hin. exact (Hinv i t p Hin).
Qed.

Lemma step_sent_on_opened w ev w' :
  sent_on_opened w -> step JSON_parse toLowerCase w ev = Some w' ->
  sent_on_opened w'.
Proof.
  intros Hinv Hs. pose proof (step_forward _ _ _ Hs) as Hf.
  destruct ev; simpl in Hs.
  - injection Hs as <-. eapply forward_sent_on_opened; [exact Hinv|done|exact Hf].
  - injection Hs as <-.
    eapply forward_sent_on_opened; [exact Hinv| |exact Hf].
    by destruct (disconnect_keeps w) as (_ & -> & _).
  - injection Hs as <-.
    eapply forward_sent_on_opened; [exact Hinv| |exact Hf].
    unfold onRuntimeDataUpdate. by destruct (existsb _ _).
  - injection Hs as <-.
    eapply forward_sent_on_opened; [exact Hinv|done|exact Hf].
  - destruct (sockets w !! i) as [[]|] eqn:Hi; try done. injection Hs as <-.
    apply onopen_sent_on_opened.
    eapply forward_sent_on_opened; [exact Hinv|done|].
    eapply forward_insert; [exact Hi | simpl; lia].
  - destruct (sockets w !! i) as [[]|]; try done. injection Hs as <-.
    eapply forward_sent_on_opened; [exact Hinv|done|exact Hf].
  - destruct (sockets w !! i) as [[]|]; try done; injection Hs as <-;
      (eapply forward_sent_on_opened; [exact Hinv|done|exact Hf]).
  - destruct (sockets w !! i) as [[]|] eqn:Hi; try done; injection Hs as <-;
      (eapply forward_sent_on_opened; [exact Hinv| |exact Hf]);
      unfold onclose;
      match goal with
      | |- context [scheduleReconnect ?x] =>
          by destruct (scheduleReconnect_keeps x) as (_ & _ & _ & -> & _)
      end.
  - destruct (interval_kind t w) as [[]|]; try done; injection Hs as <-.
    + eapply forward_sent_on_opened; [exact Hinv|done|exact Hf].
    + unfold probe. destruct (websocket_open w); [|exact Hinv].
      by do 2 apply send_sent_on_opened.
Qed.

(** X14. Nothing is ever sent on a socket that has not opened: in every
    reachable state each frame of the outbox went to a socket that is
    open, closing or closed by now, and a send while the held socket is
    missing or still connecting leaves the outbox as it is (the frame is
    dropped, not queued). *)
Theorem frames_only_on_opened_sockets (s : S) trace w :
  run JSON_parse toLowerCase (init s) trace = Some w ->
  sent_on_opened w
  /\ (forall topic payload,
        websocket_open w = false ->
        outbox (sendWebSocketMessage topic payload w) = outbox w).
Proof.
  intros Hrun. split.
  - eapply (run_invariant sent_on_opened);
      [apply step_sent_on_opened | | exact Hrun].
    intros i t p Hin. by apply elem_of_nil in Hin.
  - intros topic payload Hclosed. unfold sendWebSocketMessage.
    destruct (websocket w); [|done]. by rewrite Hclosed.
Qed.

(** *** Timers *)

Lemma init_handles_fresh (s : S) : handles_fresh (init s).
Proof. split; [apply NoDup_nil_2 | apply Forall_nil_2]. Qed.

Lemma setInterval_handles_fresh kind w :
  handles_fresh w -> handles_fresh (setInterval kind w).2.
Proof.
  intros [Hnd Hlt]. unfold handles_fresh, setInterval. cbn. split.
  - rewrite fmap_app. apply NoDup_app. split; [done|]. split.
    + intros t Ht Hin. apply list_elem_of_singleton in Hin as ->.
      apply list_elem_of_fmap in Ht as ([t' k] & Heq & Hin). simpl in Heq.
      subst t'. rewrite Forall_forall in Hlt. specialize (Hlt _ Hin).
      simpl in Hlt. lia.
    + apply NoDup_singleton.
  - apply Forall_app. split.
    + eapply Forall_impl; [exact Hlt|]. simpl. intros; lia.
    + apply Forall_singleton. simpl. lia.
Qed.

Lemma filter_handles (P : nat * IntervalKind -> Prop)
    `{forall p, Decision (P p)} (n : nat) (l : list (nat * IntervalKind)) :
  NoDup l.*1 -> Forall (fun p => p.1 < n) l ->
  NoDup (filter P l).*1 /\ Forall (fun p => p.1 < n) (filter P l).
Proof.
  intros Hnd Hlt. split.
  - eapply sublist_NoDup; [exact Hnd|].
    apply fmap_sublist, sublist_filter.
  - rewrite Forall_forall in *. intros p Hp.
    apply list_elem_of_filter in Hp as [_ Hp]. by apply Hlt.
Qed.

Lemma clearInterval_handles_fresh t w :
  handles_fresh w -> handles_fresh (clearInterval t w).
Proof.
  intros [Hnd Hlt]. unfold handles_fresh, clearInterval. cbn.
  by apply filter_handles.
Qed.

Lemma keeps_handles_fresh w w' :
  intervals w' = intervals w -> nextTimer w' = nextTimer w ->
  handles_fresh w -> handles_fresh w'.
Proof. unfold handles_fresh. by intros -> ->. Qed.

Lemma disconnect_intervals w :
  intervals (disconnectWebSocket w)
  = match reconnectInterval w with
    | Some t => filter (fun p => p.1 ≠ t) (intervals w)
    | None => intervals w
    end.
Proof.
  unfold disconnectWebSocket. cbv zeta.
  destruct (reconnectInterval w) as [t|]; cbn;
    destruct (websocket _) as [i|]; cbn; try done;
    match goal with
    | |- context [socket_close ?i ?x] =>
        by destruct (socket_close_keeps i x) as (_ & _ & _ & -> & _)
    end.
Qed.

Lemma step_handles_fresh w ev w' :
  handles_fresh w -> step JSON_parse toLowerCase w ev = Some w' ->
  handles_fresh w'.
Proof.
  intros Hinv Hs. destruct ev; simpl in Hs.
  - injection Hs as <-. exact Hinv.
  - injection Hs as <-. destruct Hinv as [Hnd Hlt]. unfold handles_fresh.
    destruct (disconnect_keeps w) as (_ & _ & -> & _).
    rewrite disconnect_intervals. destruct (reconnectInterval w); [|done].
    by apply filter_handles.
  - injection Hs as <-. unfold onRuntimeDataUpdate.
    by destruct (existsb _ _).
  - injection Hs as <-. exact Hinv.
  - destruct (sockets w !! i) as [[]|]; try done. injection Hs as <-.
    unfold onopen. cbv zeta. apply setInterval_handles_fresh.
    eapply keeps_handles_fresh; [| |exact Hinv];
      by rewrite ?send_intervals, ?send_nextTimer.
  - destruct (sockets w !! i) as [[]|]; try done. by injection Hs as <-.
  - destruct (sockets w !! i) as [[]|]; try done; by injection Hs as <-.
  - destruct (sockets w !! i) as [[]|]; try done; injection Hs as <-;
      unfold onclose, scheduleReconnect; cbn;
      (destruct (reconnectInterval w); [exact Hinv|]);
      exact (setInterval_handles_fresh ReconnectTimer _ Hinv).
  - destruct (interval_kind t w) as [[]|]; try done; injection Hs as <-.
    + exact Hinv.
    + destruct (probe_keeps w) as (_ & _ & _ & _ & Hi & Hn & _).
      by eapply keeps_handles_fresh.
Qed.

(** With distinct handles a handle names one interval. *)
Lemma interval_kind_of t kind w :
  handles_fresh w -> (t, kind) ∈ intervals w ->
  interval_kind t w = Some kind.
Proof.
  intros [Hnd _] Hin. unfold interval_kind.
  destruct (list_find (fun p => p.1 = t) (intervals w)) as [[n [t' k]]|]
    eqn:Hfind; simpl.
  - apply list_find_Some in Hfind as (Hn & Ht & _). simpl in Ht. subst t'.
    apply list_elem_of_lookup in Hin as [m Hm].
    assert (n = m) as ->.
    { eapply NoDup_lookup; [exact Hnd| |];
        rewrite list_lookup_fmap; [rewrite Hn | rewrite Hm]; done. }
    rewrite Hn in Hm. by injection Hm as ->.
  - apply list_find_None in Hfind. rewrite Forall_forall in Hfind.
    by specialize (Hfind _ Hin).
Qed.

Lemma held_is_armed t w :
  timer_inv w -> reconnectInterval w = Some t ->
  (t, ReconnectTimer) ∈ intervals w.
Proof.
  unfold timer_inv, held, armed. intros Hinv Hr. rewrite Hr in Hinv.
  assert (Ht : t ∈ (filter (fun p => p.2 = ReconnectTimer) (intervals w)).*1)
    by (rewrite Hinv; by left).
  apply list_elem_of_fmap in Ht as ([t' k] & Heq & Hin). simpl in Heq.
  subst t'. apply list_elem_of_filter in Hin as [Hk Hin]. simpl in Hk.
  by subst k.
Qed.

Lemma step_keeps_timer w ev w' t :
  ev <> CallDisconnect ->
  reconnectInterval w = Some t ->
  step JSON_parse toLowerCase w ev = Some w' ->
  reconnectInterval w' = Some t.
Proof.
  intros Hev Hr Hs. destruct ev; simpl in Hs; try done.
  - by injection Hs as <-.
  - injection Hs as <-. unfold onRuntimeDataUpdate.
    by destruct (existsb _ _).
  - by injection Hs as <-.
  - destruct (sockets w !! i) as [[]|]; try done. injection Hs as <-.
    by destruct (onopen_keeps (set_sockets (<[i:=OPEN]> (sockets w)) w))
      as (_ & -> & _).
  - destruct (sockets w !! i) as [[]|]; try done. by injection Hs as <-.
  - destruct (sockets w !! i) as [[]|]; try done; by injection Hs as <-.
  - destruct (sockets w !! i) as [[]|]; try done; injection Hs as <-;
      unfold onclose, scheduleReconnect; cbn; by rewrite Hr.
  - destruct (interval_kind t0 w) as [[]|]; try done; injection Hs as <-.
    + done.
    + by destruct (probe_keeps w) as (_ & -> & _).
Qed.

(** X15. Only [disconnectWebSocket] disarms the reconnection timer.
    Once armed it stays armed, under the same handle, along every trace
    without a call of [disconnectWebSocket]: a successful reconnection
    does not stop it. *)
Theorem reconnect_timer_outlives_reconnection (s : S) before w after w' t :
  run JSON_parse toLowerCase (init s) before = Some w ->
  reconnectInterval w = Some t ->
  no_disconnect after ->
  run JSON_parse toLowerCase w after = Some w' ->
  reconnectInterval w' = Some t /\ armed ReconnectTimer w' = [t].
Proof.
  intros Hbefore Hr Hnd Hafter.
  assert (Hinv : timer_inv w)
    by (eapply run_timer_inv; [apply init_timer_inv | exact Hbefore]).
  assert (Hinv' : timer_inv w') by (by eapply run_timer_inv).
  assert (Hr' : reconnectInterval w' = Some t).
  { clear Hbefore Hinv Hinv'. revert w Hr Hafter.
    induction after as [|ev rest IH]; intros w Hr Hafter; simpl in Hafter.
    - by injection Hafter as <-.
    - apply Forall_cons in Hnd as [Hev Hrest].
      destruct (step JSON_parse toLowerCase w ev) as [w1|] eqn:Hs; [|done].
      eapply (IH Hrest w1); [|exact Hafter]. by eapply step_keeps_timer. }
  split; [exact Hr'|]. unfold timer_inv, held in Hinv'. by rewrite Hr' in Hinv'.
Qed.

(** X16. Every tick of the reconnection timer makes a new connection.
    In a reachable state whose reconnection timer is armed the tick is
    always possible, and it constructs one more socket and makes it the
    held one, whether or not a socket is open already; the sockets made
    before are left as they are, and not closed. *)
Theorem reconnect_tick_opens_another_socket (s : S) trace w t :
  run JSON_parse toLowerCase (init s) trace = Some w ->
  reconnectInterval w = Some t ->
  exists w',
    step JSON_parse toLowerCase w (Tick t) = Some w'
    /\ sockets w' = sockets w ++ [CONNECTING]
    /\ websocket w' = Some (length (sockets w))
    /\ reconnectInterval w' = Some t.
Proof.
  intros Hrun Hr.
  assert (Hinv : timer_inv w)
    by (eapply run_timer_inv; [apply init_timer_inv | exact Hrun]).
  assert (Hfresh : handles_fresh w).
  { eapply (run_invariant handles_fresh);
      [apply step_handles_fresh | apply init_handles_fresh | exact Hrun]. }
  exists (reconnect w). simpl.
  rewrite (interval_kind_of t ReconnectTimer w Hfresh (held_is_armed t w Hinv Hr)).
  repeat split; done.
Qed.

Lemma filter_other (t : nat) (l : list nat) :
  t ∉ l -> filter (fun t' => t' ≠ t) l = l.
Proof.
  induction l as [|x l IH]; intros Hnot; [done|].
  apply not_elem_of_cons in Hnot as [Hne Hnot].
  rewrite filter_cons_True by done. by rewrite IH.
Qed.

(** A handle held for the reconnection timer is not the handle of a
    request timer. *)
Lemma held_not_probe t w :
  handles_fresh w -> timer_inv w -> reconnectInterval w = Some t ->
  t ∉ armed ProbeTimer w.
Proof.
  intros Hfresh Hinv Hr Hin. unfold armed in Hin.
  apply list_elem_of_fmap in Hin as ([t' k] & Heq & Hin). simpl in Heq.
  subst t'. apply list_elem_of_filter in Hin as [Hk Hin]. simpl in Hk.
  subst k.
  pose proof (interval_kind_of t ProbeTimer w Hfresh Hin) as H1.
  pose proof (interval_kind_of t ReconnectTimer w Hfresh
                (held_is_armed t w Hinv Hr)) as H2.
  congruence.
Qed.

Lemma step_probe_count w ev w' :
  handles_fresh w -> timer_inv w ->
  step JSON_parse toLowerCase w ev = Some w' ->
  length (armed ProbeTimer w')
  = length (armed ProbeTimer w) + opens [ev].
Proof.
  intros Hfresh Hinv Hs. destruct ev; simpl in Hs; simpl opens;
    rewrite ?Nat.add_0_r.
  - by injection Hs as <-.
  - injection Hs as <-. unfold armed. rewrite disconnect_intervals.
    destruct (reconnectInterval w) as [t|] eqn:Hr; [|done].
    rewrite armed_clear.
    fold (armed ProbeTimer w).
    by rewrite (filter_other t _ (held_not_probe t w Hfresh Hinv Hr)).
  - injection Hs as <-. unfold onRuntimeDataUpdate.
    by destruct (existsb _ _).
  - by injection Hs as <-.
  - destruct (sockets w !! i) as [[]|]; try done. injection Hs as <-.
    unfold armed.
    destruct (onopen_keeps (set_sockets (<[i:=OPEN]> (sockets w)) w))
      as (_ & _ & _ & _ & _ & _ & -> & _).
    rewrite armed_app, length_app. cbn. done.
  - destruct (sockets w !! i) as [[]|]; try done. by injection Hs as <-.
  - destruct (sockets w !! i) as [[]|]; try done; by injection Hs as <-.
  - destruct (sockets w !! i) as [[]|]; try done; injection Hs as <-;
      unfold onclose, scheduleReconnect, armed; cbn;
      (destruct (reconnectInterval w); [done|]); cbn;
      rewrite armed_app, length_app; cbn;
      (destruct (decide (ReconnectTimer = ProbeTimer)); [done|]); cbn; lia.
  - destruct (interval_kind t w) as [[]|]; try done; injection Hs as <-.
    + done.
    + unfold armed. by destruct (probe_keeps w) as (_ & _ & _ & _ & -> & _).
Qed.

(** X17. The request timers armed by [onopen] are never cleared.  In
    every reachable state as many of them are armed as sockets have
    opened so far: neither the close of the socket nor
    [disconnectWebSocket] stops one. *)
Theorem request_timers_are_never_cleared (s : S) trace w :
  run JSON_parse toLowerCase (init s) trace = Some w ->
  length (armed ProbeTimer w) = opens trace.
Proof.
  enough (Hgen : forall trace w0 w1,
            handles_fresh w0 -> timer_inv w0 ->
            run JSON_parse toLowerCase w0 trace = Some w1 ->
            length (armed ProbeTimer w1)
            = length (armed ProbeTimer w0) + opens trace).
  { intros Hrun.
    rewrite (Hgen trace (init s) w (init_handles_fresh s)
               (init_timer_inv S s) Hrun). done. }
  clear. induction trace as [|ev rest IH]; intros w0 w1 Hf Hi Hrun;
    simpl in Hrun.
  - injection Hrun as <-. simpl. lia.
  - destruct (step JSON_parse toLowerCase w0 ev) as [w2|] eqn:Hs; [|done].
    rewrite (IH w2 w1); [| by eapply step_handles_fresh
                          | by eapply step_timer_inv | exact Hrun].
    rewrite (step_probe_count _ _ _ Hf Hi Hs).
    destruct ev; simpl; lia.
Qed.

Lemma send_outbox topic payload w :
  outbox (sendWebSocketMessage topic payload w)
  = outbox w
    ++ match websocket w with
       | Some h =>
           if bool_decide (sockets w !! h = Some OPEN)
           then [(h, topic, payload)] else []
       | None => []
       end.
Proof.
  unfold sendWebSocketMessage, websocket_open.
  destruct (websocket w) as [h|]; [|by rewrite app_nil_r].
  destruct (bool_decide _); [done | by rewrite app_nil_r].
Qed.

(** X18. The state requests of [onopen] go to the socket the instance
    holds, not to the socket that opened.  When the socket that opens is
    the held one the five requests are sent to it, in the order
    get-runtime, get-timer, get-playback, poll-runtime, ontime-poll; when
    the instance holds no socket, or holds another one that is not open,
    nothing is sent. *)
Theorem open_requests_go_to_held_socket w i w' :
  step JSON_parse toLowerCase w (SockOpen i) = Some w' ->
  outbox w'
  = outbox w
    ++ match websocket w with
       | Some h =>
           if bool_decide (<[i := OPEN]> (sockets w) !! h = Some OPEN)
           then probeFrames h else []
       | None => []
       end
  /\ (websocket w = Some i -> outbox w' = outbox w ++ probeFrames i).
Proof.
  intros Hs. simpl in Hs.
  destruct (sockets w !! i) as [[]|] eqn:Hi; try done. injection Hs as <-.
  assert (Hmain : outbox (onopen (set_sockets (<[i:=OPEN]> (sockets w)) w))
    = outbox w
      ++ match websocket w with
         | Some h =>
             if bool_decide (<[i := OPEN]> (sockets w) !! h = Some OPEN)
             then probeFrames h else []
         | None => []
         end).
  { unfold onopen, setInterval. cbv zeta. cbn.
    rewrite !send_outbox, !send_websocket, !send_sockets. cbn.
    destruct (websocket w) as [h|]; cbn; [|by rewrite !app_nil_r].
    destruct (bool_decide (<[i:=OPEN]> (sockets w) !! h = Some OPEN));
      cbn; [|by rewrite !app_nil_r].
    by rewrite <- !app_assoc. }
  split; [exact Hmain|]. intros Hw. rewrite Hmain, Hw.
  rewrite bool_decide_eq_true_2; [done|].
  rewrite list_lookup_insert_eq; [done | by eapply lookup_lt_Some].
Qed.

(** *** Subscribers *)

Lemma subscribed_spec (l : Listener S) (ls : list (Listener S)) :
  existsb (fun l' => Nat.eqb (lid l') (lid l)) ls = true
  <-> lid l ∈ lid <$> ls.
Proof.
  rewrite existsb_exists, list_elem_of_fmap. split.
  - intros (l' & Hin & Heq). apply Nat.eqb_eq in Heq.
    exists l'. split; [done|]. by apply list_elem_of_In.
  - intros (l' & Heq & Hin). exists l'. split; [by apply list_elem_of_In|].
    by apply Nat.eqb_eq.
Qed.

Lemma step_listeners_NoDup w ev w' :
  NoDup (lid <$> wsListeners w) ->
  step JSON_parse toLowerCase w ev = Some w' ->
  NoDup (lid <$> wsListeners w').
Proof.
  intros Hinv Hs. destruct ev; simpl in Hs.
  - by injection Hs as <-.
  - injection Hs as <-. destruct (disconnect_keeps w) as (_ & _ & _ & -> & _).
    apply NoDup_nil_2.
  - injection Hs as <-. unfold onRuntimeDataUpdate.
    destruct (existsb _ _) eqn:Hex; [done|]. cbn.
    rewrite fmap_app. apply NoDup_app. split; [done|]. split.
    + intros x Hx Hin. apply list_elem_of_singleton in Hin as ->.
      apply subscribed_spec in Hx. congruence.
    + apply NoDup_singleton.
  - injection Hs as <-. unfold unsubscribe. cbn.
    eapply sublist_NoDup; [exact Hinv|]. apply fmap_sublist, sublist_filter.
  - destruct (sockets w !! i) as [[]|]; try done. injection Hs as <-.
    by destruct (onopen_keeps (set_sockets (<[i:=OPEN]> (sockets w)) w))
      as (_ & _ & -> & _).
  - destruct (sockets w !! i) as [[]|]; try done. by injection Hs as <-.
  - destruct (sockets w !! i) as [[]|]; try done; by injection Hs as <-.
  - destruct (sockets w !! i) as [[]|]; try done; injection Hs as <-;
      unfold onclose;
      match goal with
      | |- context [scheduleReconnect ?x] =>
          by destruct (scheduleReconnect_keeps x) as (_ & -> & _)
      end.
  - destruct (interval_kind t w) as [[]|]; try done; injection Hs as <-.
    + done.
    + by destruct (probe_keeps w) as (_ & _ & -> & _).
Qed.

(** X19. The subscribers form a set.  In every reachable state no
    callback is registered twice; subscribing a callback that is
    registered changes nothing; the function returned by
    [onRuntimeDataUpdate] removes the callback, and removing a callback
    that was just added gives back the subscribers there were. *)
Theorem subscribers_form_a_set (s : S) trace w :
  run JSON_parse toLowerCase (init s) trace = Some w ->
  NoDup (lid <$> wsListeners w)
  /\ (forall l : Listener S, onRuntimeDataUpdate l (onRuntimeDataUpdate l w)
                = onRuntimeDataUpdate l w)
  /\ (forall l : Listener S, lid l ∉ lid <$> wsListeners (unsubscribe (lid l) w))
  /\ (forall l : Listener S, lid l ∉ lid <$> wsListeners w ->
        wsListeners (unsubscribe (lid l) (onRuntimeDataUpdate l w))
        = wsListeners w).
Proof.
  intros Hrun. split; [|split; [|split]].
  - eapply (run_invariant (fun w0 : World S => NoDup (@lid S <$> wsListeners w0)));
      [apply step_listeners_NoDup | | exact Hrun].
    apply NoDup_nil_2.
  - intros l. unfold onRuntimeDataUpdate at 1.
    destruct (existsb _ (wsListeners (onRuntimeDataUpdate l w))) eqn:Hex;
      [done|exfalso].
    assert (Hin : lid l ∈ lid <$> wsListeners (onRuntimeDataUpdate l w)).
    { unfold onRuntimeDataUpdate.
      destruct (existsb _ (wsListeners w)) eqn:Hex'.
      - by apply subscribed_spec.
      - cbn. rewrite fmap_app. apply elem_of_app. right. by left. }
    apply subscribed_spec in Hin. congruence.
  - intros l Hin. unfold unsubscribe in Hin. cbn in Hin.
    apply list_elem_of_fmap in Hin as (l' & Heq & Hin).
    apply list_elem_of_filter in Hin as [Hne _]. by apply Hne.
  - intros l Hnot. unfold onRuntimeDataUpdate.
    destruct (existsb _ (wsListeners w)) eqn:Hex.
    { apply subscribed_spec in Hex. done. }
    unfold unsubscribe. cbn. rewrite filter_app.
    rewrite filter_cons_False by (simpl; intros H; by apply H).
    rewrite filter_nil, app_nil_r.
    clear Hex. induction (wsListeners w) as [|l' ls IH]; [done|].
    rewrite fmap_cons in Hnot. apply not_elem_of_cons in Hnot as [Hne Hnot].
    rewrite filter_cons_True by (simpl; congruence).
    by rewrite IH.
Qed.

End ManagerInvariants.

(** * Time formatting *)

(** X20. Below one hour the two formatters agree: a duration of [s]
    seconds, positive or negative, is printed by [formatDuration] as the
    time [1000 * s] milliseconds is printed by [formatTime]. *)
Theorem formatters_agree_below_one_hour (s : Z) :
  (-3600 < s < 3600)%Z ->
  formatTime (Num (1000 * s)) = formatDuration (Num s).
Proof.
  intros Hs. unfold formatTime, formatDuration. cbv zeta.
  assert (Habs : (Z.abs (1000 * s) / 1000 = Z.abs s)%Z).
  { rewrite Z.abs_mul. change (Z.abs 1000) with 1000%Z.
    rewrite Z.mul_comm. by apply Z.div_mul. }
  rewrite Habs.
  assert (Hlt : (0 <= Z.abs s < 3600)%Z) by lia.
  rewrite (Z.div_small (Z.abs s) 3600) by exact Hlt.
  rewrite (Z.mod_small (Z.abs s) 3600) by exact Hlt.
  change (0 <? 0)%Z with false. cbv iota.
  replace (1000 * s <? 0)%Z with (s <? 0)%Z; [done|].
  destruct (Z.ltb_spec s 0); symmetry; [apply Z.ltb_lt | apply Z.ltb_ge]; lia.
Qed.

(** X21. [formatTime] prints whole seconds, cut toward zero, and marks
    every negative value with a minus sign: the text of [-ms] is that of
    [ms] behind the sign, the part below a second changes nothing, and a
    value between -1 s and 0 is printed as -00:00. *)
Theorem formatTime_sign_and_truncation (ms : Z) :
  ((0 < ms)%Z ->
     formatTime (Num (- ms)) = "-" +:+ formatTime (Num ms))
  /\ ((0 <= ms)%Z ->
      formatTime (Num ms) = formatTime (Num (ms - ms mod 1000)))
  /\ ((-1000 < ms < 0)%Z -> formatTime (Num ms) = "-00:00").
Proof.
  split; [|split].
  - intros Hpos. unfold formatTime. cbv zeta. rewrite Z.abs_opp.
    replace (- ms <? 0)%Z with true by (symmetry; apply Z.ltb_lt; lia).
    replace (ms <? 0)%Z with false by (symmetry; apply Z.ltb_ge; lia).
    by destruct (0 <? _)%Z.
  - intros Hpos. unfold formatTime. cbv zeta.
    assert (Hq : (Z.abs (ms - ms mod 1000) / 1000 = Z.abs ms / 1000)%Z).
    { pose proof (Z.mod_pos_bound ms 1000 ltac:(lia)) as Hm.
      pose proof (Z.div_mod ms 1000 ltac:(lia)) as Hdm.
      pose proof (Z.div_pos ms 1000 ltac:(lia) ltac:(lia)) as Hq0.
      replace (ms - ms mod 1000)%Z with ((ms / 1000) * 1000)%Z by lia.
      rewrite (Z.abs_eq (ms / 1000 * 1000)) by lia.
      rewrite Z.div_mul by lia. by rewrite (Z.abs_eq ms) by lia. }
    rewrite Hq.
    replace (ms - ms mod 1000 <? 0)%Z with (ms <? 0)%Z; [done|].
    pose proof (Z.mod_pos_bound ms 1000 ltac:(lia)) as Hm.
    pose proof (Z.mod_le ms 1000 ltac:(lia) ltac:(lia)) as Hle.
    replace (ms <? 0)%Z with false by (symmetry; apply Z.ltb_ge; lia).
    symmetry; apply Z.ltb_ge; lia.
  - intros Hneg. unfold formatTime. cbv zeta.
    rewrite (Z.div_small (Z.abs ms) 1000) by lia.
    replace (ms <? 0)%Z with true by (symmetry; apply Z.ltb_lt; lia).
    reflexivity.
Qed.

(** * The ordered rundown *)

Section OrderedRundownProperties.
Variable inherited : string -> bool.

Lemma getOrderedRundown_elem normalized entry :
  entry ∈ getOrderedRundown inherited normalized
  <-> exists id, id ∈ NormalizedRundown.order normalized
                 /\ rundown_get inherited
                      (NormalizedRundown.rundown normalized) id = Some entry.
Proof. unfold getOrderedRundown. apply list_elem_of_omap. Qed.

Lemma getOrderedRundown_app rundown before after revision delay duration :
  getOrderedRundown inherited
    (NormalizedRundown.mk rundown (before ++ after) revision delay duration)
  = getOrderedRundown inherited
      (NormalizedRundown.mk rundown before revision delay duration)
    ++ getOrderedRundown inherited
         (NormalizedRundown.mk rundown after revision delay duration).
Proof. unfold getOrderedRundown. cbn. apply omap_app. Qed.

(** X22. When every id of the order has an event under it and that
    event carries the id, the ordered rundown consists of events only,
    one for each position of the order, and the ids of its events are
    the order itself; with distinct ids in the order the events have
    distinct ids. *)
Theorem ordered_rundown_follows_order normalized :
  (forall id, id ∈ NormalizedRundown.order normalized ->
     exists e, NormalizedRundown.rundown normalized !! id = Some e
               /\ OntimeEvent.id e = id) ->
  exists events,
    getOrderedRundown inherited normalized = EventEntry <$> events
    /\ OntimeEvent.id <$> events = NormalizedRundown.order normalized
    /\ length (getOrderedRundown inherited normalized)
       = length (NormalizedRundown.order normalized)
    /\ (NoDup (NormalizedRundown.order normalized) ->
        NoDup (OntimeEvent.id <$> events)).
Proof.
  unfold getOrderedRundown. intros H.
  assert (Hev : exists events,
             omap (rundown_get inherited (NormalizedRundown.rundown normalized))
               (NormalizedRundown.order normalized)
             = EventEntry <$> events
             /\ OntimeEvent.id <$> events = NormalizedRundown.order normalized).
  { induction (NormalizedRundown.order normalized) as [|id rest IH].
    - by exists [].
    - destruct (H id) as (e & He & Hid); [by left|].
      destruct IH as (events & Hevents & Hids).
      { intros id' Hin. apply H. by right. }
      exists (e :: events). cbn. unfold rundown_get at 1. rewrite He. cbn.
      by rewrite Hevents, Hid, Hids. }
  destruct Hev as (events & Hevents & Hids).
  exists events. split; [exact Hevents|]. split; [exact Hids|]. split.
  - by rewrite Hevents, length_fmap, <- Hids, length_fmap.
  - by rewrite Hids.
Qed.

(** X23. An id of the order that has no event under it is dropped
    without a trace, so the later entries move up by one, unless it is
    the name of a member the record inherits from [Object.prototype]:
    then the inherited member stands at its place among the events.
    The events of the result are exactly those found under some id of
    the order, its other entries are exactly the inherited names that
    the order lists without an event, and there are never more entries
    than ids. *)
Theorem ordered_rundown_drops_unknown_ids normalized :
  let rundown := NormalizedRundown.rundown normalized in
  let ordered ids :=
    getOrderedRundown inherited
      (NormalizedRundown.mk rundown ids (NormalizedRundown.revision normalized)
         (NormalizedRundown.totalDelay normalized)
         (NormalizedRundown.totalDuration normalized)) in
  (forall before id after,
     NormalizedRundown.order normalized = before ++ id :: after ->
     rundown !! id = None ->
     getOrderedRundown inherited normalized
     = if inherited id
       then ordered before ++ InheritedMember id :: ordered after
       else ordered (before ++ after))
  /\ (forall e, EventEntry e ∈ getOrderedRundown inherited normalized
        <-> exists id, id ∈ NormalizedRundown.order normalized
              /\ rundown !! id = Some e)
  /\ (forall name,
        InheritedMember name ∈ getOrderedRundown inherited normalized
        <-> name ∈ NormalizedRundown.order normalized
            /\ rundown !! name = None /\ inherited name = true)
  /\ length (getOrderedRundown inherited normalized)
     <= length (NormalizedRundown.order normalized).
Proof.
  intros rundown ordered. split; [|split; [|split]].
  - intros before id after Horder Hnone.
    assert (Hall : getOrderedRundown inherited normalized
                   = ordered before ++ ordered [id] ++ ordered after).
    { unfold ordered. rewrite <- !getOrderedRundown_app.
      unfold getOrderedRundown. cbn. by rewrite Horder. }
    rewrite Hall. unfold ordered, getOrderedRundown. cbn.
    unfold rundown_get at 2. rewrite Hnone.
    destruct (inherited id); cbn; [done|]. by rewrite omap_app.
  - intros e. rewrite getOrderedRundown_elem. fold rundown. split.
    + intros (id & Hin & Hget). exists id. split; [done|].
      unfold rundown_get in Hget. destruct (rundown !! id).
      * by injection Hget as ->.
      * by destruct (inherited id).
    + intros (id & Hin & Hget). exists id. split; [done|].
      unfold rundown_get. by rewrite Hget.
  - intros name. rewrite getOrderedRundown_elem. fold rundown. split.
    + intros (id & Hin & Hget). unfold rundown_get in Hget.
      destruct (rundown !! id) eqn:Hid; [done|].
      destruct (inherited id) eqn:Hinh; [|done].
      by injection Hget as ->.
    + intros (Hin & Hnone & Hinh). exists name. split; [done|].
      unfold rundown_get. by rewrite Hnone, Hinh.
  - unfold getOrderedRundown. fold rundown.
    induction (NormalizedRundown.order normalized) as [|id rest IH]; [done|].
    cbn. destruct (rundown_get inherited rundown id); cbn; lia.
Qed.

End OrderedRundownProperties.

(** * Custom-field definitions *)

Section CustomFieldsProperties.
Variable Object_keys : gmap string string -> list string.
Variable StringToNumber : string -> number.
Variable trim : string -> string.
(** [Object.keys] lists the keys of the record. *)
Hypothesis Object_keys_spec :
  forall (m : gmap string string) k, k ∈ Object_keys m <-> is_Some (m !! k).

Notation add_field := (addField StringToNumber trim).
Notation add_event := (addEvent Object_keys StringToNumber trim).
Notation custom_fields := (useCustomFields Object_keys StringToNumber trim).
Notation ids fields := (CustomField.id <$> fields).

(** The field made for the key [k] of the record [custom]. *)
Notation fieldOf custom k :=
  (CustomField.mk k (replaceUnderscores k)
     (inferType StringToNumber trim (default "" (custom !! k))) None None).

Lemma hasField_spec k (fields : list CustomField.t) :
  hasField k fields = true <-> k ∈ ids fields.
Proof.
  unfold hasField. rewrite existsb_exists, list_elem_of_fmap. split.
  - intros (f & Hin & Heq). apply String.eqb_eq in Heq.
    exists f. split; [done|]. by apply list_elem_of_In.
  - intros (f & Heq & Hin). exists f. split; [by apply list_elem_of_In|].
    by apply String.eqb_eq.
Qed.

Lemma addField_cases custom fields k :
  (k ∈ ids fields /\ add_field custom fields k = fields)
  \/ (k ∉ ids fields /\ add_field custom fields k = fields ++ [fieldOf custom k]).
Proof.
  unfold addField. destruct (hasField k fields) eqn:Hhas.
  - left. split; [by apply hasField_spec | done].
  - right. split; [|done]. intros Hin. apply hasField_spec in Hin. congruence.
Qed.

Lemma addField_spec custom fields k :
  well_formed fields ->
  well_formed (add_field custom fields k)
  /\ fields `prefix_of` add_field custom fields k
  /\ (forall id, id ∈ ids (add_field custom fields k)
        <-> id ∈ ids fields \/ id = k).
Proof.
  intros [Hnd Hshape].
  destruct (addField_cases custom fields k) as [[Hin ->] | [Hnot ->]].
  - split; [done|]. split; [done|]. intros id. split; [by left|].
    intros [H | ->]; done.
  - split; [split|split].
    + rewrite fmap_app. apply NoDup_app. split; [done|]. split.
      * intros x Hx Hx'. apply list_elem_of_singleton in Hx' as ->. done.
      * apply NoDup_singleton.
    + apply Forall_app. split; [done|]. by apply Forall_singleton.
    + by apply prefix_app_r.
    + intros id. rewrite fmap_app, elem_of_app. cbn.
      by rewrite list_elem_of_singleton.
Qed.

Lemma foldl_addField_spec custom keys :
  forall fields,
    well_formed fields ->
    well_formed (foldl (add_field custom) fields keys)
    /\ fields `prefix_of` foldl (add_field custom) fields keys
    /\ (forall id, id ∈ ids (foldl (add_field custom) fields keys)
          <-> id ∈ ids fields \/ id ∈ keys).
Proof.
  induction keys as [|k rest IH]; intros fields Hwf; simpl.
  - split; [done|]. split; [done|]. intros id. split; [by left|].
    intros [H|H]; [done | by apply elem_of_nil in H].
  - destruct (addField_spec custom fields k Hwf) as (Hwf1 & Hp1 & Hi1).
    destruct (IH _ Hwf1) as (Hwf2 & Hp2 & Hi2).
    split; [done|]. split; [by etrans|].
    intros id. rewrite Hi2, Hi1, elem_of_cons. tauto.
Qed.

Lemma addEvent_spec fields ev :
  well_formed fields ->
  well_formed (add_event fields ev)
  /\ fields `prefix_of` add_event fields ev
  /\ (forall id, id ∈ ids (add_event fields ev)
        <-> id ∈ ids fields \/ is_Some (custom_value ev id)).
Proof.
  intros Hwf. unfold addEvent, custom_value.
  destruct (OntimeEvent.custom ev) as [custom|]; simpl.
  - destruct (foldl_addField_spec custom (Object_keys custom) fields Hwf)
      as (Hwf' & Hp & Hi).
    split; [done|]. split; [done|]. intros id.
    by rewrite Hi, Object_keys_spec.
  - split; [done|]. split; [done|]. intros id. split; [by left|].
    intros [H | [x Hx]]; done.
Qed.

Lemma foldl_addEvent_spec events :
  forall fields,
    well_formed fields ->
    well_formed (foldl add_event fields events)
    /\ fields `prefix_of` foldl add_event fields events
    /\ (forall id, id ∈ ids (foldl add_event fields events)
          <-> id ∈ ids fields
              \/ exists ev, ev ∈ events /\ is_Some (custom_value ev id)).
Proof.
  induction events as [|ev rest IH]; intros fields Hwf; simpl.
  - split; [done|]. split; [done|]. intros id. split; [by left|].
    intros [H | (ev & Hin & _)]; [done | by apply elem_of_nil in Hin].
  - destruct (addEvent_spec fields ev Hwf) as (Hwf1 & Hp1 & Hi1).
    destruct (IH _ Hwf1) as (Hwf2 & Hp2 & Hi2).
    split; [done|]. split; [by etrans|].
    intros id. rewrite Hi2, Hi1. split.
    + intros [[H | H] | (ev' & Hin & H)]; [by left | right | right].
      * exists ev. split; [by left | done].
      * exists ev'. split; [by right | done].
    + intros [H | (ev' & Hin & H)]; [by left; left|].
      apply elem_of_cons in Hin as [-> | Hin]; [by left; right|].
      right. by exists ev'.
Qed.

Lemma well_formed_nil : well_formed [].
Proof. split; [apply NoDup_nil_2 | apply Forall_nil_2]. Qed.

Lemma replaceUnderscores_length s :
  String.length (replaceUnderscores s) = String.length s.
Proof. induction s as [|c s IH]; simpl; by rewrite ?IH. Qed.

(** X24. The custom fields are the keys of the events, once each.  A
    field is listed exactly when some event of the rundown has a value
    under its id; no id is listed twice; every label is the id with each
    underscore replaced by a space, so as long as the id; and no field
    has a colour or options. *)
Theorem custom_fields_are_the_keys data :
  NoDup (ids (custom_fields data))
  /\ (forall k, k ∈ ids (custom_fields data)
        <-> exists ev, ev ∈ default [] data /\ is_Some (custom_value ev k))
  /\ Forall (fun f =>
               CustomField.label f = replaceUnderscores (CustomField.id f)
               /\ String.length (CustomField.label f)
                  = String.length (CustomField.id f)
               /\ CustomField.colour f = None
               /\ CustomField.options f = None)
       (custom_fields data).
Proof.
  unfold useCustomFields.
  destruct (foldl_addEvent_spec (default [] data) [] well_formed_nil)
    as ([Hnd Hshape] & _ & Hi).
  split; [done|]. split.
  - intros k. rewrite Hi. split; [|by right].
    intros [H|H]; [by apply elem_of_nil in H | done].
  - eapply Forall_impl; [exact Hshape|]. simpl.
    intros f (Hl & Hc & Ho). rewrite Hl at 2.
    by rewrite replaceUnderscores_length.
Qed.

Lemma foldl_addField_first custom keys k :
  forall fields,
    well_formed fields -> k ∈ keys -> k ∉ ids fields ->
    fieldOf custom k ∈ foldl (add_field custom) fields keys.
Proof.
  induction keys as [|k0 rest IH]; intros fields Hwf Hin Hnot; simpl.
  { by apply elem_of_nil in Hin. }
  destruct (addField_spec custom fields k0 Hwf) as (Hwf1 & Hp1 & Hi1).
  destruct (decide (k0 = k)) as [->|Hne].
  - destruct (addField_cases custom fields k) as [[Hk _] | [_ Heq]]; [done|].
    destruct (foldl_addField_spec custom rest _ Hwf1) as (_ & Hp & _).
    eapply elem_of_prefix; [|exact Hp].
    rewrite Heq. apply elem_of_app. right. by left.
  - apply IH; [done | |].
    + apply elem_of_cons in Hin as [Heq | Hin]; [congruence | done].
    + rewrite Hi1. intros [H | H]; [done | congruence].
Qed.

Lemma foldl_addEvent_first before ev after k v :
  forall fields,
    well_formed fields -> k ∉ ids fields ->
    (forall e, e ∈ before -> custom_value e k = None) ->
    custom_value ev k = Some v ->
    CustomField.mk k (replaceUnderscores k) (inferType StringToNumber trim v)
      None None
    ∈ foldl add_event fields (before ++ ev :: after).
Proof.
  induction before as [|e0 rest IH]; intros fields Hwf Hnot Hbefore Hv; simpl.
  - destruct (addEvent_spec fields ev Hwf) as (Hwf1 & _ & _).
    destruct (foldl_addEvent_spec after _ Hwf1) as (_ & Hp & _).
    eapply elem_of_prefix; [|exact Hp].
    unfold addEvent. unfold custom_value in Hv.
    destruct (OntimeEvent.custom ev) as [custom|]; [|done]. simpl in Hv.
    pose proof (foldl_addField_first custom (Object_keys custom) k fields
                  Hwf) as Hf.
    rewrite Hv in Hf. apply Hf; [|done].
    apply Object_keys_spec. by rewrite Hv.
  - destruct (addEvent_spec fields e0 Hwf) as (Hwf1 & _ & Hi1).
    apply IH; [done | | |done].
    + rewrite Hi1. intros [H | [x Hx]]; [done|].
      rewrite (Hbefore e0) in Hx by (by left). done.
    + intros e He. apply Hbefore. by right.
Qed.

(** X25. The type of a custom field is guessed once, from the first
    event of the rundown that has a value under the field: "true" and
    "false" make it boolean, a text that is a number and not blank makes
    it a number, anything else text.  The values of later events do not
    change it, and there is no other field with that id. *)
Theorem field_type_from_first_carrier before ev after k v :
  (forall e, e ∈ before -> custom_value e k = None) ->
  custom_value ev k = Some v ->
  let fields := custom_fields (Some (before ++ ev :: after)) in
  let field :=
    CustomField.mk k (replaceUnderscores k) (inferType StringToNumber trim v)
      None None in
  field ∈ fields
  /\ (forall f, f ∈ fields -> CustomField.id f = k -> f = field)
  /\ CustomField.type field
     = if String.eqb v "true" || String.eqb v "false" then ft_boolean
       else if negb (isNaN (StringToNumber v)) && negb (String.eqb (trim v) "")
            then ft_number else ft_text.
Proof.
  intros Hbefore Hv fields field.
  assert (Hin : field ∈ fields).
  { unfold fields, useCustomFields. simpl.
    apply foldl_addEvent_first; try done.
    - apply well_formed_nil.
    - intros H. by apply elem_of_nil in H. }
  split; [exact Hin|]. split; [|done].
  intros f Hf Hid.
  destruct (foldl_addEvent_spec (before ++ ev :: after) [] well_formed_nil)
    as ([Hnd _] & _).
  change (NoDup (ids fields)) in Hnd.
  apply list_elem_of_lookup in Hin as [i Hi].
  apply list_elem_of_lookup in Hf as [j Hj].
  assert (i = j) as ->.
  { eapply NoDup_lookup; [exact Hnd| |];
      rewrite list_lookup_fmap; [rewrite Hi | rewrite Hj]; simpl; by f_equal. }
  congruence.
Qed.

End CustomFieldsProperties.

(** * The time input of the control panel *)

(** X26. The manual time input sends at most one request, and only a
    strictly positive number of seconds: a positive entry is added, a
    negative entry is removed with its sign dropped, and the input is
    emptied.  An entry that is no number, or zero, sends nothing and
    stays in the input. *)
Theorem time_input_sends_positive_seconds (parseInt : string -> number)
    (timeInput : string) :
  let requests := (handleTimeInput parseInt timeInput).1 in
  let input := (handleTimeInput parseInt timeInput).2 in
  (requests = [] /\ input = timeInput
   /\ (parseInt timeInput = NaN \/ parseInt timeInput = Num 0))
  \/ (exists seconds : Z,
        (0 < seconds)%Z /\ input = ""
        /\ ((parseInt timeInput = Num seconds
             /\ requests = [ {| url := "/playback/addtime";
                                body := VObj [("seconds", VNum seconds)] |} ])
            \/ (parseInt timeInput = Num (- seconds)
                /\ requests = [ {| url := "/playback/removetime";
                                   body := VObj [("seconds", VNum seconds)] |} ]))).
Proof.
  unfold handleTimeInput.
  destruct (parseInt timeInput) as [n|]; [|left; auto].
  destruct (Z.eqb_spec n 0) as [->|Hne]; [left; auto|]. right. cbn.
  unfold handleTimeAdjustment. destruct (Z.ltb_spec 0 n).
  - exists n. split; [done|]. split; [done|]. by left.
  - exists (- n)%Z. split; [lia|]. split; [done|]. right.
    rewrite Z.opp_involutive. split; [done|].
    unfold removeTime. by rewrite Z.abs_neq by lia.
Qed.

(** * The field editor of the event card *)

Lemma cardInitial_lookup ev k :
  fieldValues (cardInitial ev) !! k = custom_value ev k.
Proof.
  unfold cardInitial, custom_value. simpl.
  by destruct (OntimeEvent.custom ev).
Qed.

Lemma currentValue_local ev st k v :
  fieldValues st !! k = Some v -> v <> "" -> currentValue ev st k = v.
Proof.
  intros Hk Hv. unfold currentValue. rewrite Hk. simpl.
  apply String.eqb_neq in Hv. by rewrite Hv.
Qed.


(** X28. Opening the editor changes nothing on display.  When the edit
    button of a field is pressed the input starts from the text the card
    was showing for that field.  The editor of another field that was
    open is closed without a save and without a cancel: its unsaved text
    stays in the cache and, unless it is empty, stays on display. *)
Theorem edit_button_keeps_display ev k st :
  editingField st <> Some k ->
  let st' := startEdit ev k st in
  editingField st' = Some k
  /\ displayed ev st' k = displayed ev st k
  /\ (forall k' typed,
        k' <> k -> editingField st = Some k' ->
        fieldValues st !! k' = Some typed -> typed <> "" ->
        displayed ev st' k' = typed /\ displayed ev st k' = typed).
Proof.
  intros Hnot. cbn. split; [done|]. split.
  - unfold displayed. cbn. rewrite bool_decide_eq_true_2 by done.
    rewrite bool_decide_eq_false_2 by done. by rewrite lookup_insert_eq.
  - intros k' typed Hne Hediting Htyped Hnonempty. unfold displayed. cbn.
    rewrite bool_decide_eq_false_2 by congruence.
    rewrite (bool_decide_eq_true_2 _ Hediting). rewrite Htyped.
    split; [|done]. apply currentValue_local; [|done].
    cbn. rewrite lookup_insert_ne by done. exact Htyped.
Qed.


(** * The further properties on concrete data *)

(** ** The status derivation *)

(** X1 on the scenario. *)
Lemma derivation_keeps_rundown_witness :
  exists l,
    useEventsWithStatus noNumber (Some scenarioRundown) scenarioSnapshot = Some l
    /\ event <$> l = scenarioRundown
    /\ length l = 3.
Proof.
  eexists. split; [vm_compute; reflexivity|].
  apply (derivation_keeps_rundown noNumber (Some scenarioRundown)
           scenarioSnapshot).
  vm_compute; reflexivity.
Defined.

(** X2 on the scenario. *)
Lemma running_state_only_on_active_witness :
  exists l,
    useEventsWithStatus noNumber (Some scenarioRundown) scenarioSnapshot = Some l
    /\ Forall (fun r =>
                 (status r <> active ->
                  isRunning r = false /\ timeRemaining r = None)
                 /\ (status r = active ->
                     OntimeEvent.skip (event r) = false
                     /\ prop (prop scenarioSnapshot "playback") "selectedEventId"
                        = VStr (OntimeEvent.id (event r)))) l.
Proof.
  eexists. split; [vm_compute; reflexivity|].
  apply (running_state_only_on_active noNumber (Some scenarioRundown)
           scenarioSnapshot).
  vm_compute; reflexivity.
Defined.

(** X3 on the scenario: the second event is the selected one. *)
Lemma selection_cuts_rundown_witness :
  exists l,
    useEventsWithStatus noNumber (Some scenarioRundown) scenarioSnapshot = Some l
    /\ forall (n : nat) e,
         scenarioRundown !! n = Some e ->
         exists r, l !! n = Some r /\ event r = e
                   /\ status r = status_at 1 n e.
Proof.
  apply (selection_cuts_rundown noNumber (Some scenarioRundown)
           scenarioSnapshot 1 (sampleEvent "21313f" false (Some 600%Z) None)).
  - apply (bool_decide_unpack _). vm_compute; reflexivity.
  - reflexivity.
  - reflexivity.
  - eexists. reflexivity.
Defined.

(** X4 on the selected event of the scenario: 600 s less 30 s. *)
Lemma time_remaining_of_active_witness :
  deriveOne noNumber scenarioRundown scenarioSnapshot
    (sampleEvent "21313f" false (Some 600%Z) None) 1
  = Some {| event := sampleEvent "21313f" false (Some 600%Z) None;
            status := active; isRunning := true;
            timeRemaining := Some (Num 570000) |}.
Proof.
  destruct (time_remaining_of_active noNumber scenarioRundown scenarioSnapshot
              (sampleEvent "21313f" false (Some 600%Z) None) 1
              eq_refl eq_refl) as (Hnum & _).
  apply (Hnum 600%Z 30000%Z); [reflexivity | discriminate | reflexivity].
Defined.

(** ** The message handler *)

(** X5 on a frame that is no JSON. *)
Lemma malformed_frame_is_dropped_witness :
  let e' := onmessage (parse_table []) toLowerCase_ascii "<html>"
              [runtimeDataListener] (hookEffects scenarioSnapshot) in
  delivered e' = []
  /\ store e' = store (hookEffects scenarioSnapshot)
  /\ console e' = [LogRawData "<html>"; ErrParse "<html>"].
Proof.
  apply (malformed_frame_is_dropped HookState (parse_table [])
           toLowerCase_ascii "<html>" [runtimeDataListener]
           (hookEffects scenarioSnapshot)).
  right. reflexivity.
Defined.

(** X7 on a message without a topic, with the hook's subscriber. *)
Lemma no_topic_broadcast_stops_at_first_throw_witness :
  delivered (handleWebSocketMessage toLowerCase_ascii
               (envelope VNull timerOnlyPayload) [runtimeDataListener]
               (hookEffects VNull))
  = [(0%nat, timerOnlyPayload)].
Proof.
  destruct (no_topic_broadcast_stops_at_first_throw HookState toLowerCase_ascii
              (envelope VNull timerOnlyPayload) [runtimeDataListener]
              (hookEffects VNull) eq_refl eq_refl eq_refl) as (Hall & _).
  apply Hall. intros l s Hin. eexists.
  apply list_elem_of_singleton in Hin. rewrite Hin. reflexivity.
Defined.



(** X10 on a full snapshot followed by a timer-only frame and a frame
    that is no JSON. *)
Lemma snapshot_is_most_recent_delivery_witness :
  let parse := parse_table [ ("full", envelope (VStr "runtime") scenarioSnapshot);
                             ("tick", typeDataFrame) ] in
  let e' := receive parse toLowerCase_ascii ["full"; "tick"; "<html>"]
              (hookEffects VNull) in
  snapshot e' = default VNull (last (delivered e').*2).
Proof.
  apply (snapshot_is_most_recent_delivery
           (parse_table [ ("full", envelope (VStr "runtime") scenarioSnapshot);
                          ("tick", typeDataFrame) ])
           toLowerCase_ascii ["full"; "tick"; "<html>"] (hookEffects VNull)).
  reflexivity.
Defined.

(** ** The connection manager *)

(** X11: a frame that arrives on a new connection after the teardown
    reaches nobody. *)
Lemma teardown_silences_subscribers_witness :
  let w := onRuntimeDataUpdate runtimeDataListener start in
  exists w',
    run (parse_table [("frame", typeDataFrame)]) toLowerCase_ascii
      (disconnectWebSocket w) [CallConnect; SockOpen 0; SockMessage 0 "frame"]
    = Some w'
    /\ wsListeners w' = []
    /\ store (eff w') = store (eff w)
    /\ delivered (eff w') = delivered (eff w).
Proof.
  eexists. split; [vm_compute; reflexivity|].
  apply (teardown_silences_subscribers HookState
           (parse_table [("frame", typeDataFrame)]) toLowerCase_ascii
           (onRuntimeDataUpdate runtimeDataListener start)
           [CallConnect; SockOpen 0; SockMessage 0 "frame"]).
  - repeat constructor.
  - vm_compute; reflexivity.
Defined.

(** X12 on a connection that opens and closes. *)
Lemma sockets_only_move_forward_witness :
  exists w w',
    run (parse_table []) toLowerCase_ascii start [CallConnect; SockOpen 0]
    = Some w
    /\ run (parse_table []) toLowerCase_ascii w [SockClose 0; Tick 2] = Some w'
    /\ forward (sockets w) (sockets w')
    /\ (forall i, sockets w !! i = Some CLOSED -> sockets w' !! i = Some CLOSED)
    /\ length (sockets w) <= length (sockets w').
Proof.
  eexists. eexists. split; [vm_compute; reflexivity|].
  split; [vm_compute; reflexivity|].
  apply (sockets_only_move_forward HookState (parse_table [])
           toLowerCase_ascii _ [SockClose 0; Tick 2]).
  vm_compute; reflexivity.
Defined.

(** X13 on an instance that connected twice: the second socket is held
    and open when the first one closes. *)
Lemma close_event_drops_held_socket_witness :
  exists w w',
    run (parse_table []) toLowerCase_ascii start
      [CallConnect; CallConnect; SockOpen 1] = Some w
    /\ step (parse_table []) toLowerCase_ascii w (SockClose 0) = Some w'
    /\ (websocket w = Some 1 /\ sockets w !! 1%nat = Some OPEN)
    /\ websocket w' = None
    /\ websocket_open w' = false
    /\ (forall topic payload, sendWebSocketMessage topic payload w' = w')
    /\ sockets w' !! 0%nat = Some CLOSED
    /\ (forall j, j <> 0 -> sockets w' !! j = sockets w !! j).
Proof.
  eexists. eexists. split; [vm_compute; reflexivity|].
  split; [vm_compute; reflexivity|].
  split; [split; vm_compute; reflexivity|].
  apply (close_event_drops_held_socket HookState (parse_table [])
           toLowerCase_ascii _ 0).
  vm_compute; reflexivity.
Defined.

(** X14 on a connection that opened and closed. *)
Lemma frames_only_on_opened_sockets_witness :
  exists w,
    run (parse_table []) toLowerCase_ascii start
      [CallConnect; SockOpen 0; SockClose 0] = Some w
    /\ sent_on_opened w
    /\ (forall topic payload,
          websocket_open w = false ->
          outbox (sendWebSocketMessage topic payload w) = outbox w).
Proof.
  eexists. split; [vm_compute; reflexivity|].
  apply (frames_only_on_opened_sockets HookState (parse_table [])
           toLowerCase_ascii hookInitial
           [CallConnect; SockOpen 0; SockClose 0]).
  vm_compute; reflexivity.
Defined.

(** X15: the timer armed by the first close (handle 2) is still armed
    after its tick and the opening of the new socket. *)
Lemma reconnect_timer_outlives_reconnection_witness :
  exists w w',
    run (parse_table []) toLowerCase_ascii start
      [CallConnect; SockOpen 0; SockClose 0] = Some w
    /\ run (parse_table []) toLowerCase_ascii w [Tick 2; SockOpen 1] = Some w'
    /\ reconnectInterval w' = Some 2
    /\ armed ReconnectTimer w' = [2].
Proof.
  eexists. eexists. split; [vm_compute; reflexivity|].
  split; [vm_compute; reflexivity|].
  eapply (reconnect_timer_outlives_reconnection HookState (parse_table [])
            toLowerCase_ascii hookInitial
            [CallConnect; SockOpen 0; SockClose 0] _ [Tick 2; SockOpen 1]).
  - vm_compute; reflexivity.
  - reflexivity.
  - repeat constructor; discriminate.
  - vm_compute; reflexivity.
Defined.

(** X16 on the state after the reconnection has succeeded. *)
Lemma reconnect_tick_opens_another_socket_witness :
  exists w,
    run (parse_table []) toLowerCase_ascii start
      [CallConnect; SockOpen 0; SockClose 0; Tick 2; SockOpen 1] = Some w
    /\ exists w',
         step (parse_table []) toLowerCase_ascii w (Tick 2) = Some w'
         /\ sockets w' = sockets w ++ [CONNECTING]
         /\ websocket w' = Some (length (sockets w))
         /\ reconnectInterval w' = Some 2.
Proof.
  eexists. split; [vm_compute; reflexivity|].
  apply (reconnect_tick_opens_another_socket HookState (parse_table [])
           toLowerCase_ascii hookInitial
           [CallConnect; SockOpen 0; SockClose 0; Tick 2; SockOpen 1] _ 2).
  - vm_compute; reflexivity.
  - reflexivity.
Defined.

(** X17: two sockets have opened, two request timers are armed. *)
Lemma request_timers_are_never_cleared_witness :
  exists w,
    run (parse_table []) toLowerCase_ascii start
      [CallConnect; SockOpen 0; SockClose 0; Tick 2; SockOpen 1;
       CallDisconnect] = Some w
    /\ length (armed ProbeTimer w) = 2.
Proof.
  eexists. split; [vm_compute; reflexivity|].
  apply (request_timers_are_never_cleared HookState (parse_table [])
           toLowerCase_ascii hookInitial
           [CallConnect; SockOpen 0; SockClose 0; Tick 2; SockOpen 1;
            CallDisconnect]).
  vm_compute; reflexivity.
Defined.

(** X18 on the first opening. *)
Lemma open_requests_go_to_held_socket_witness :
  exists w',
    step (parse_table []) toLowerCase_ascii (connectWebSocket start) (SockOpen 0)
    = Some w'
    /\ outbox w' = probeFrames 0.
Proof.
  eexists. split; [vm_compute; reflexivity|].
  refine (proj2 (open_requests_go_to_held_socket HookState (parse_table [])
                   toLowerCase_ascii (connectWebSocket start) 0 _ _) _).
  - vm_compute; reflexivity.
  - reflexivity.
Defined.

(** X19 on an instance the hook has subscribed to twice. *)
Lemma subscribers_form_a_set_witness :
  exists w,
    run (parse_table []) toLowerCase_ascii start
      [CallSubscribe runtimeDataListener; CallConnect;
       CallSubscribe runtimeDataListener] = Some w
    /\ NoDup (lid <$> wsListeners w)
    /\ (forall l : Listener HookState,
          onRuntimeDataUpdate l (onRuntimeDataUpdate l w)
          = onRuntimeDataUpdate l w)
    /\ (forall l : Listener HookState,
          lid l ∉ lid <$> wsListeners (unsubscribe (lid l) w))
    /\ (forall l : Listener HookState,
          lid l ∉ lid <$> wsListeners w ->
          wsListeners (unsubscribe (lid l) (onRuntimeDataUpdate l w))
          = wsListeners w).
Proof.
  eexists. split; [vm_compute; reflexivity|].
  apply (subscribers_form_a_set HookState (parse_table []) toLowerCase_ascii
           hookInitial
           [CallSubscribe runtimeDataListener; CallConnect;
            CallSubscribe runtimeDataListener]).
  vm_compute; reflexivity.
Defined.

(** ** Formatting and the ordered rundown *)

(** X20 on two minutes and five seconds. *)
Lemma formatters_agree_below_one_hour_witness :
  formatTime (Num 125000) = formatDuration (Num 125).
Proof. apply (formatters_agree_below_one_hour 125). lia. Defined.

(** X21 on a second and a half. *)
Lemma formatTime_sign_and_truncation_witness :
  formatTime (Num (- 1500)) = "-" +:+ formatTime (Num 1500)
  /\ formatTime (Num 1500) = formatTime (Num (1500 - 1500 mod 1000)).
Proof.
  destruct (formatTime_sign_and_truncation 1500) as (Hsign & Htrunc & _).
  split; [apply Hsign | apply Htrunc]; lia.
Defined.

(** X22 on the normalized scenario. *)
Lemma ordered_rundown_follows_order_witness :
  exists events,
    getOrderedRundown inObjectPrototype scenarioNormalized
    = EventEntry <$> events
    /\ OntimeEvent.id <$> events = ["21313f"; "421b5a"]
    /\ length (getOrderedRundown inObjectPrototype scenarioNormalized) = 2
    /\ (NoDup ["21313f"; "421b5a"] -> NoDup (OntimeEvent.id <$> events)).
Proof.
  apply (ordered_rundown_follows_order inObjectPrototype scenarioNormalized).
  intros id Hin.
  apply elem_of_cons in Hin as [-> | Hin];
    [eexists; split; vm_compute; reflexivity|].
  apply list_elem_of_singleton in Hin as ->.
  eexists; split; vm_compute; reflexivity.
Defined.

(** X23 on the two rundowns whose order names an id without an event:
    [deleted] is dropped, and [constructor] leaves the inherited member
    between the two events. *)
Lemma ordered_rundown_drops_unknown_ids_witness :
  getOrderedRundown inObjectPrototype danglingNormalized
  = [ EventEntry (sampleEvent "21313f" false (Some 600%Z) None);
      EventEntry (sampleEvent "421b5a" false (Some 300%Z) None) ]
  /\ getOrderedRundown inObjectPrototype prototypeNormalized
     = [ EventEntry (sampleEvent "21313f" false (Some 600%Z) None);
         InheritedMember "constructor";
         EventEntry (sampleEvent "421b5a" false (Some 300%Z) None) ].
Proof.
  destruct (ordered_rundown_drops_unknown_ids inObjectPrototype
              danglingNormalized) as (Hdrop & _).
  destruct (ordered_rundown_drops_unknown_ids inObjectPrototype
              prototypeNormalized) as (Hkeep & _).
  split.
  - rewrite (Hdrop ["21313f"] "deleted" ["421b5a"]);
      vm_compute; reflexivity.
  - rewrite (Hkeep ["21313f"] "constructor" ["421b5a"]);
      vm_compute; reflexivity.
Defined.

(** ** Custom fields *)

Lemma keysOf_spec (m : gmap string string) k :
  k ∈ keysOf m <-> is_Some (m !! k).
Proof.
  unfold keysOf. rewrite list_elem_of_fmap. split.
  - intros ([k' v] & -> & Hin). apply elem_of_map_to_list in Hin. by eexists.
  - intros [v Hv]. exists (k, v). split; [done|].
    by apply elem_of_map_to_list.
Qed.

(** X24 on the three events. *)
Lemma custom_fields_are_the_keys_witness :
  let fields := useCustomFields keysOf noNumber (fun s => s) (Some fieldRundown) in
  NoDup (CustomField.id <$> fields)
  /\ (forall k, k ∈ CustomField.id <$> fields
        <-> exists ev, ev ∈ fieldRundown /\ is_Some (custom_value ev k))
  /\ Forall (fun f =>
               CustomField.label f = replaceUnderscores (CustomField.id f)
               /\ String.length (CustomField.label f)
                  = String.length (CustomField.id f)
               /\ CustomField.colour f = None
               /\ CustomField.options f = None) fields.
Proof.
  apply (custom_fields_are_the_keys keysOf noNumber (fun s => s) keysOf_spec
           (Some fieldRundown)).
Defined.

(** X25 on the three events: the second is the first to have a value
    under [Image_Test], and that value reads as a boolean. *)
Lemma field_type_from_first_carrier_witness :
  CustomField.mk "Image_Test" "Image Test" ft_boolean None None
  ∈ useCustomFields keysOf noNumber (fun s => s) (Some fieldRundown).
Proof.
  refine (proj1 (field_type_from_first_carrier keysOf noNumber (fun s => s)
                   keysOf_spec
                   [sampleEvent "421b5a" false None None]
                   (sampleEvent "21313f" false None
                      (Some {[ "Image_Test" := "true" ]}))
                   [sampleEvent "146dc4" false None
                      (Some {[ "Image_Test" := "a.png" ]})]
                   "Image_Test" "true" _ _)).
  - intros e He. apply list_elem_of_singleton in He. rewrite He. reflexivity.
  - vm_compute; reflexivity.
Defined.

(** ** The field editor *)


(** X28 on the card as mounted. *)
Lemma edit_button_keeps_display_witness :
  let ev := sampleEvent "421b5a" false None
              (Some {[ "Image_Test" := "old.png" ]}) in
  displayed ev (startEdit ev "Image_Test" (cardInitial ev)) "Image_Test"
  = displayed ev (cardInitial ev) "Image_Test".
Proof.
  intros ev.
  refine (proj1 (proj2 (edit_button_keeps_display ev "Image_Test"
                          (cardInitial ev) _))).
  discriminate.
Defined.

